(** * The Bot Manager (ui/script.js) and the chart smoothing utility

    A shallow embedding of the HTA script that supervises the four
    Minecraft bot folders MC1..MC4: the configuration documents it reads
    and writes through Scripting.FileSystemObject, the processes it hands
    to WScript.Shell, the status indicators and the log of its page, and
    the timers (setTimeout / setInterval) through which its batch
    operations and its install polling run.  The chart utility
    smoothChartData of the dashboard scripts is embedded beside it.

    Conventions.
    - A JScript object used as a dictionary is a finite map (gmap) or,
      where the document order of its members matters, an association
      list.
    - A call that may raise returns [res]; a try/catch is a match on it.
    - What the outside world answers (does shell.Run raise?  has the
      polled process exited, and with which code?) is an explicit
      argument [Host] of every handler that asks.
    - A closure handed to setTimeout / setInterval is a constructor of
      [task] holding the variables it captured. *)

From stdpp Require Import gmap strings list pretty.

Set Warnings "-register-all,-clear-no-such-hyp".

(** ** Chart smoothing (smoothChartData) *)

Module Chart.
Section Smoothing.
(** The entries of a chart data array and the arithmetic of the
    engine on them.  Nothing is assumed of the operations: the
    structural facts below hold for IEEE doubles as for any other
    reading of [*], [+] and [-]. *)
Context {num : Type}.
Variable undefined : num.          (* what an out-of-range index reads *)
Variable one : num.                (* the literal 1 *)
Variable fifth : num.              (* the default smoothingFactor, 0.2 *)
Variables add sub mul : num → num → num.

(** [data[i]] *)
Definition at_index (data : list num) (i : nat) : num :=
  default undefined (data !! i).

(** The body of [for (let i = 1; i < data.length - 1; i++)], run for
    [n] more iterations from index [i]. *)
Fixpoint smoothLoop (data : list num) (smoothingFactor : num)
    (n i : nat) (smoothedData : list num) : list num :=
  match n with
  | O => smoothedData
  | S n' =>
      let previous := at_index smoothedData (i - 1) in
      let current := at_index data i in
      let smoothed :=
        add (mul previous (sub one smoothingFactor)) (mul current smoothingFactor) in
      smoothLoop data smoothingFactor n' (S i) (smoothedData ++ [smoothed])
  end.

(** [data] is [None] when the caller passes null or undefined;
    [smoothingFactor] is [None] when the argument is left out. *)
Definition smoothChartData (data : option (list num))
    (smoothingFactor : option num) : option (list num) :=
  let smoothingFactor := default fifth smoothingFactor in
  match data with
  | None => None
  | Some d =>
      if bool_decide (length d ≤ 2) then Some d
      else
        let smoothedData := [at_index d 0] in
        let smoothedData :=
          smoothLoop d smoothingFactor (length d - 2) 1 smoothedData in
        Some (smoothedData ++ [at_index d (length d - 1)])
  end.
End Smoothing.
End Chart.

(** ** JSON documents *)

(** The outcome of an expression that may raise; [message] is the
  [e.message] a catch block reads. *)
Inductive res (A : Type) : Type :=
| Ok (a : A)
| Throw (message : string).
Arguments Ok {A} a.
Arguments Throw {A} message.

(** Sequencing: the first raise ends the block (stdpp's [x ← r; k]). *)
Global Instance res_bind : MBind res := λ A B k r,
match r with
| Ok a => k a
| Throw message => Throw message
end.

Module Json.

(** A parsed document.  Members of an object keep their document
    order; numbers are the integers the manager's documents hold. *)
Inductive json : Type :=
| JNull
| JBool (b : bool)
| JNum (n : Z)
| JStr (s : string)
| JArr (items : list json)
| JObj (members : list (string * json)).

(** [o[k]] on the members of an object: [None] is undefined. *)
Fixpoint member (k : string) (members : list (string * json)) : option json :=
  match members with
  | [] => None
  | (k', v) :: rest => if bool_decide (k = k') then Some v else member k rest
  end.

(** [o[k] = v] on the members of an object: an existing member keeps
    its place, a new one goes last. *)
Fixpoint put_member (k : string) (v : json) (members : list (string * json))
    : list (string * json) :=
  match members with
  | [] => [(k, v)]
  | (k', v') :: rest =>
      if bool_decide (k = k') then (k, v) :: rest
      else (k', v') :: put_member k v rest
  end.

(** The text of the TypeError raised on a property access through
    undefined or null. *)
Definition cannot_get (k : string) : string :=
  "Unable to get property '" +:+ k +:+ "' of undefined or null reference".
Definition cannot_set (k : string) : string :=
  "Unable to set property '" +:+ k +:+ "' of undefined or null reference".

(** [doc.p1. ... .pn.k = x], on a tree that shares nothing (the result
    of JSON.parse), as the document it leaves behind.  Reading a
    property of null, or of the undefined a missing member reads as,
    raises; a property read off a number, string, boolean or array is
    undefined for the names the manager uses; a property stored on a
    number, string or boolean is dropped, and one stored on an array
    is not part of what JSON.stringify writes. *)
Fixpoint assign (path : list string) (k : string) (x : json) (doc : json)
    : res json :=
  match path with
  | [] =>
      match doc with
      | JNull => Throw (cannot_set k)
      | JObj members => Ok (JObj (put_member k x members))
      | _ => Ok doc
      end
  | p :: path' =>
      match doc with
      | JNull => Throw (cannot_get p)
      | JObj members =>
          match member p members with
          | Some child =>
              child' ← assign path' k x child;
              Ok (JObj (put_member p child' members))
          | None =>
              Throw (match path' with [] => cannot_set k | q :: _ => cannot_get q end)
          end
      | _ => Throw (match path' with [] => cannot_set k | q :: _ => cannot_get q end)
      end
  end.

(** [doc.p1. ... .pn], [None] when some step is missing. *)
Fixpoint lookup_path (path : list string) (doc : json) : option json :=
  match path with
  | [] => Some doc
  | p :: path' =>
      match doc with
      | JObj members => member p members ≫= lookup_path path'
      | _ => None
      end
  end.


End Json.
Export Json.

(** ** The manager's state *)

Module Manager.

(** An entry of the log: the class is [log-entry log-<type>]; the text
    on the page also carries the wall-clock time in front. *)
Record LogEntry : Type := { className : string; message : string }.

(** What a file holds, as JSON.parse reads it: a document, or text that
    makes JSON.parse (or ReadAll, on an empty file) raise [message]. *)
Inductive content : Type :=
| Text (doc : json)
| Malformed (message : string).

(** The continuation installAll hands to installBot; [cell] names the
    [completed] variable of the installAll call that made it. *)
Inductive callback : Type :=
| InstallAllCallback (cell : nat).

(** The functions handed to setTimeout and setInterval. *)
Inductive task : Type :=
| InstallAllTimeout (botName : string) (cell : nat)   (* installAll, per bot *)
| InstallAllFinished (cell : nat)                      (* installAll, at the end *)
| InstallBotCheck (botName : string) (callback : option callback)
                                                       (* installBot's poll *)
| StartAllTimeout (botName : string).                  (* startAllBots, per bot *)

(** A pending timer: it may be served once the clock has reached [due];
    an interval ([period] set) is then due again a period later. *)
Record timer : Type := { tid : nat; due : N; period : option N; job : task }.

(** The inputs of the server settings form. *)
Record ServerForm : Type := {
  serverIP : string;
  serverVersion : string;
  chatMessagesText : string;
  repeatMessages : string;
  repeatDelayText : string
}.

Record State : Type := {
  currentDir : string;                    (* the folder the page was opened from *)
  folders : gset string;                  (* FolderExists *)
  files : gmap string content;            (* FileExists, and what each file holds *)
  runningProcesses : gmap string bool;    (* the global runningProcesses *)
  statusIndicators : gmap string string;  (* className of status-<bot>, per card *)
  serverForm : ServerForm;                (* the server settings inputs *)
  logContainer : list LogEntry;           (* the log, oldest entry first *)
  progressBar : string;                   (* progressBar.style.display *)
  progressFill : string;                  (* progressFill.style.width, innerText *)
  alerts : list string;                   (* the alert boxes shown, oldest first *)
  launched : list string;                 (* command lines the shell accepted *)
  now : N;                                (* the host clock, in ms *)
  timers : list timer;                    (* pending timeouts and intervals *)
  nextTimer : nat;                        (* the id the next timer gets *)
  completed : list nat                    (* a [completed] per installAll call *)
}.

(** Field updates. *)
Definition set_files (v : gmap string content) (st : State) : State :=
  {| currentDir := currentDir st; folders := folders st; files := v; runningProcesses
     := runningProcesses st; statusIndicators := statusIndicators st; serverForm :=
     serverForm st; logContainer := logContainer st; progressBar := progressBar st;
     progressFill := progressFill st; alerts := alerts st; launched := launched st; now
     := now st; timers := timers st; nextTimer := nextTimer st; completed := completed st
     |}.
Definition set_runningProcesses (v : gmap string bool) (st : State) : State :=
  {| currentDir := currentDir st; folders := folders st; files := files st;
     runningProcesses := v; statusIndicators := statusIndicators st; serverForm :=
     serverForm st; logContainer := logContainer st; progressBar := progressBar st;
     progressFill := progressFill st; alerts := alerts st; launched := launched st; now
     := now st; timers := timers st; nextTimer := nextTimer st; completed := completed st
     |}.
Definition set_statusIndicators (v : gmap string string) (st : State) : State :=
  {| currentDir := currentDir st; folders := folders st; files := files st;
     runningProcesses := runningProcesses st; statusIndicators := v; serverForm :=
     serverForm st; logContainer := logContainer st; progressBar := progressBar st;
     progressFill := progressFill st; alerts := alerts st; launched := launched st; now
     := now st; timers := timers st; nextTimer := nextTimer st; completed := completed st
     |}.
Definition set_serverForm (v : ServerForm) (st : State) : State :=
  {| currentDir := currentDir st; folders := folders st; files := files st;
     runningProcesses := runningProcesses st; statusIndicators := statusIndicators st;
     serverForm := v; logContainer := logContainer st; progressBar := progressBar st;
     progressFill := progressFill st; alerts := alerts st; launched := launched st; now
     := now st; timers := timers st; nextTimer := nextTimer st; completed := completed st
     |}.
Definition set_logContainer (v : list LogEntry) (st : State) : State :=
  {| currentDir := currentDir st; folders := folders st; files := files st;
     runningProcesses := runningProcesses st; statusIndicators := statusIndicators st;
     serverForm := serverForm st; logContainer := v; progressBar := progressBar st;
     progressFill := progressFill st; alerts := alerts st; launched := launched st; now
     := now st; timers := timers st; nextTimer := nextTimer st; completed := completed st
     |}.
Definition set_progressBar (v : string) (st : State) : State :=
  {| currentDir := currentDir st; folders := folders st; files := files st;
     runningProcesses := runningProcesses st; statusIndicators := statusIndicators st;
     serverForm := serverForm st; logContainer := logContainer st; progressBar := v;
     progressFill := progressFill st; alerts := alerts st; launched := launched st; now
     := now st; timers := timers st; nextTimer := nextTimer st; completed := completed st
     |}.
Definition set_progressFill (v : string) (st : State) : State :=
  {| currentDir := currentDir st; folders := folders st; files := files st;
     runningProcesses := runningProcesses st; statusIndicators := statusIndicators st;
     serverForm := serverForm st; logContainer := logContainer st; progressBar :=
     progressBar st; progressFill := v; alerts := alerts st; launched := launched st; now
     := now st; timers := timers st; nextTimer := nextTimer st; completed := completed st
     |}.
Definition set_alerts (v : list string) (st : State) : State :=
  {| currentDir := currentDir st; folders := folders st; files := files st;
     runningProcesses := runningProcesses st; statusIndicators := statusIndicators st;
     serverForm := serverForm st; logContainer := logContainer st; progressBar :=
     progressBar st; progressFill := progressFill st; alerts := v; launched := launched
     st; now := now st; timers := timers st; nextTimer := nextTimer st; completed :=
     completed st |}.
Definition set_launched (v : list string) (st : State) : State :=
  {| currentDir := currentDir st; folders := folders st; files := files st;
     runningProcesses := runningProcesses st; statusIndicators := statusIndicators st;
     serverForm := serverForm st; logContainer := logContainer st; progressBar :=
     progressBar st; progressFill := progressFill st; alerts := alerts st; launched := v;
     now := now st; timers := timers st; nextTimer := nextTimer st; completed :=
     completed st |}.
Definition set_now (v : N) (st : State) : State :=
  {| currentDir := currentDir st; folders := folders st; files := files st;
     runningProcesses := runningProcesses st; statusIndicators := statusIndicators st;
     serverForm := serverForm st; logContainer := logContainer st; progressBar :=
     progressBar st; progressFill := progressFill st; alerts := alerts st; launched :=
     launched st; now := v; timers := timers st; nextTimer := nextTimer st; completed :=
     completed st |}.
Definition set_timers (v : list timer) (st : State) : State :=
  {| currentDir := currentDir st; folders := folders st; files := files st;
     runningProcesses := runningProcesses st; statusIndicators := statusIndicators st;
     serverForm := serverForm st; logContainer := logContainer st; progressBar :=
     progressBar st; progressFill := progressFill st; alerts := alerts st; launched :=
     launched st; now := now st; timers := v; nextTimer := nextTimer st; completed :=
     completed st |}.
Definition set_nextTimer (v : nat) (st : State) : State :=
  {| currentDir := currentDir st; folders := folders st; files := files st;
     runningProcesses := runningProcesses st; statusIndicators := statusIndicators st;
     serverForm := serverForm st; logContainer := logContainer st; progressBar :=
     progressBar st; progressFill := progressFill st; alerts := alerts st; launched :=
     launched st; now := now st; timers := timers st; nextTimer := v; completed :=
     completed st |}.
Definition set_completed (v : list nat) (st : State) : State :=
  {| currentDir := currentDir st; folders := folders st; files := files st;
     runningProcesses := runningProcesses st; statusIndicators := statusIndicators st;
     serverForm := serverForm st; logContainer := logContainer st; progressBar :=
     progressBar st; progressFill := progressFill st; alerts := alerts st; launched :=
     launched st; now := now st; timers := timers st; nextTimer := nextTimer st;
     completed := v |}.
(** What the outside answers during one handler: [raises cmd] is the
    message of the error shell.Run / shell.Exec raises on [cmd] ([None]:
    the call returns); [exited] is the exit code of the process the
    handler looks at, [None] while it has not ended (Status 0). *)
Record Host : Type := { raises : string → option string; exited : option Z }.

Definition botNames : list string := ["MC1"; "MC2"; "MC3"; "MC4"].

(** The double quote. *)
Definition dq : string := String (Ascii.ascii_of_nat 34) EmptyString.

(** *** The page and the host *)

Definition logMessage (message type : string) (st : State) : State :=
  let logClass := "log-" +:+ (if bool_decide (type = EmptyString) then "info" else type) in
  set_logContainer
    (logContainer st ++ [{| className := "log-entry " +:+ logClass; message := message |}]) st.

Definition updateStatus (botName status : string) (st : State) : State :=
  match statusIndicators st !! botName with
  | Some _ =>
      set_statusIndicators
        (<[botName := "status-indicator status-" +:+ status]> (statusIndicators st)) st
  | None => st
  end.

Definition alert (text : string) (st : State) : State :=
  set_alerts (alerts st ++ [text]) st.

Definition FolderExists (path : string) (st : State) : bool :=
  bool_decide (path ∈ folders st).

Definition FileExists (path : string) (st : State) : bool :=
  bool_decide (is_Some (files st !! path)).

(** CreateTextFile(path, true); Write(JSON.stringify(doc, null, 2)); Close *)
Definition writeDocument (path : string) (doc : json) (st : State) : State :=
  set_files (<[path := Text doc]> (files st)) st.

(** OpenTextFile(path, 1); ReadAll; Close; JSON.parse *)
Definition readDocument (path : string) (st : State) : res json :=
  match files st !! path with
  | Some (Text doc) => Ok doc
  | Some (Malformed message) => Throw message
  | None => Throw "File not found"
  end.

(** The shell accepted [cmd]. *)
Definition launch (cmd : string) (st : State) : State :=
  set_launched (launched st ++ [cmd]) st.

Definition setTimer (job : task) (delay : N) (period : option N) (st : State) : State :=
  set_nextTimer (S (nextTimer st))
    (set_timers
       (timers st ++ [{| tid := nextTimer st; due := now st + delay; period := period; job := job |}])
       st).

Definition setTimeout (job : task) (delay : N) (st : State) : State :=
  setTimer job delay None st.

Definition setInterval (job : task) (delay : N) (st : State) : State :=
  setTimer job delay (Some delay) st.

Definition clearInterval (id : nat) (st : State) : State :=
  set_timers (filter (λ t, tid t ≠ id) (timers st)) st.

(** *** The configuration documents (ConfigStore) *)

(** The [server] object saveConfig builds and hands to
    updateBotSettings; [repeatDelay] is [None] when parseInt gave NaN. *)
Record ServerConfig : Type := {
  ip : string;
  version : string;
  chatMessages : list string;
  repeat : bool;
  repeatDelay : option Z
}.

(** A number as JSON.stringify writes it: NaN is written null. *)
Definition number (n : option Z) : json :=
  match n with
  | Some n => JNum n
  | None => JNull
  end.

(** The [server] member of global_config.json. *)
Definition serverDocument (serverConfig : ServerConfig) : json :=
  JObj [("ip", JStr (ip serverConfig));
        ("version", JStr (version serverConfig));
        ("chatMessages", JArr (JStr <$> chatMessages serverConfig));
        ("repeat", JBool (repeat serverConfig));
        ("repeatDelay", number (repeatDelay serverConfig))].

Definition defaultServer : ServerConfig :=
  {| ip := "play.pika-network.net";
     version := "1.18.1";
     chatMessages := ["/login password"; "/server survival"; "/home base"];
     repeat := true;
     repeatDelay := Some 6%Z |}.

Definition account (username password type : string) : json :=
  JObj [("username", JStr username); ("password", JStr password); ("type", JStr type)].

Definition defaultAccounts : json :=
  JObj [("MC1", account "Bot1" EmptyString "offline");
        ("MC2", account "Bot2" EmptyString "offline");
        ("MC3", account "Bot3" EmptyString "offline");
        ("MC4", account "Bot4" EmptyString "offline")].

Definition defaultConfig : json :=
  JObj [("accounts", defaultAccounts); ("server", serverDocument defaultServer)].

(** [doc[k]] for a member name: raises on null; a number, string,
    boolean or array has no member of the names the manager reads. *)
Definition get (doc : json) (k : string) : res (option json) :=
  match doc with
  | JNull => Throw (cannot_get k)
  | JObj members => Ok (member k members)
  | _ => Ok None
  end.

(** The loop of renderBotConfigs over the members of [accounts]: one
    card per member, its indicator showing stopped.  Reading
    [account.type] raises when the account is null; the cards made up to
    there stay on the page. *)
Fixpoint renderCards (members : list (string * json)) (st : State)
    : State * option string :=
  match members with
  | [] => (st, None)
  | (botName, JNull) :: _ => (st, Some (cannot_get "type"))
  | (botName, _) :: rest =>
      renderCards rest
        (set_statusIndicators
           (<[botName := "status-indicator status-stopped"]> (statusIndicators st)) st)
  end.

(** renderBotConfigs(accounts).  The loop [for (var botName in accounts)]
    visits the members of an object and the indices of an array, and
    nothing for undefined, null, numbers and booleans (nor, in this
    host, for strings).  The result carries the message of the error
    raised on the way, if any. *)
Definition renderBotConfigs (accounts : option json) (st : State)
    : State * option string :=
  let st := set_statusIndicators ∅ st in
  match accounts with
  | Some (JObj members) => renderCards members st
  | Some (JArr items) => renderCards (imap (λ i item, (pretty i, item)) items) st
  | _ => (st, None)
  end.

(** The line feed the messages are joined with. *)
Definition lf : string := String (Ascii.ascii_of_nat 10) EmptyString.

Fixpoint join (sep : string) (lines : list string) : string :=
  match lines with
  | [] => EmptyString
  | [line] => line
  | line :: rest => line +:+ sep +:+ join sep rest
  end.

Definition loadServerConfigFromData (serverConfig : ServerConfig) (st : State) : State :=
  set_serverForm
    {| serverIP :=
         if bool_decide (ip serverConfig = EmptyString) then "play.pika-network.net"
         else ip serverConfig;
       serverVersion :=
         if bool_decide (version serverConfig = EmptyString) then "1.18.1"
         else version serverConfig;
       repeatMessages := if repeat serverConfig then "true" else "false";
       repeatDelayText :=
         match repeatDelay serverConfig with
         | Some n => if bool_decide (n = 0%Z) then "6" else pretty n
         | None => "6"
         end;
       chatMessagesText :=
         if bool_decide (0 < length (chatMessages serverConfig))
         then join lf (chatMessages serverConfig)
         else chatMessagesText (serverForm st) |}
    st.

Definition createDefaultConfig (st : State) : State :=
  let configPath := currentDir st +:+ "\global_config.json" in
  let st := writeDocument configPath defaultConfig st in
  match renderBotConfigs (Some defaultAccounts) st with
  | (st, None) =>
      let st := loadServerConfigFromData defaultServer st in
      logMessage "Default configuration created!" "success" st
  | (st, Some message) => logMessage ("Error creating config: " +:+ message) "error" st
  end.

Definition loadConfig (st : State) : State :=
  let configPath := currentDir st +:+ "\global_config.json" in
  let st := logMessage ("Loading configuration from: " +:+ configPath) "info" st in
  if negb (FileExists configPath st) then
    let st := logMessage "Config file not found, creating default..." "warning" st in
    createDefaultConfig st
  else
    match config ← readDocument configPath st; get config "accounts" with
    | Throw message => logMessage ("Error loading config: " +:+ message) "error" st
    | Ok accounts =>
        match renderBotConfigs accounts st with
        | (st, None) => logMessage "Configuration loaded successfully!" "success" st
        | (st, Some message) => logMessage ("Error loading config: " +:+ message) "error" st
        end
    end.

(** The five assignments of updateBotSettings on a parsed settings
    document. *)
Definition applyServerConfig (serverConfig : ServerConfig) (settings : json) : res json :=
  settings ← assign ["server"] "ip" (JStr (ip serverConfig)) settings;
  settings ← assign ["server"] "version" (JStr (version serverConfig)) settings;
  settings ← assign ["utils"; "chat-messages"] "messages"
                (JArr (JStr <$> chatMessages serverConfig)) settings;
  settings ← assign ["utils"; "chat-messages"] "repeat"
                (JBool (repeat serverConfig)) settings;
  assign ["utils"; "chat-messages"] "repeat-delay"
    (number (repeatDelay serverConfig)) settings.

Definition settingsPath (botName : string) (st : State) : string :=
  currentDir st +:+ "\" +:+ botName +:+ "\settings.json".

(** One round of the loop of updateBotSettings: its try block and its
    catch. *)
Definition updateBotSettings_round (serverConfig : ServerConfig) (botName : string)
    (st : State) : State :=
  if negb (FileExists (settingsPath botName st) st) then st
  else
    match settings ← readDocument (settingsPath botName st) st;
          applyServerConfig serverConfig settings with
    | Ok settings =>
        let st := writeDocument (settingsPath botName st) settings st in
        logMessage (botName +:+ ": Settings updated") "success" st
    | Throw message =>
        logMessage (botName +:+ ": Error updating settings - " +:+ message) "error" st
    end.

(** The loop over a list of bot names, and updateBotSettings itself. *)
Definition updateBotSettings_over (names : list string) (serverConfig : ServerConfig)
    (st : State) : State :=
  foldl (λ st botName, updateBotSettings_round serverConfig botName st) st names.

Definition updateBotSettings (serverConfig : ServerConfig) (st : State) : State :=
  updateBotSettings_over botNames serverConfig st.

(** *** Install, start, stop (ProcessSupervisor) *)

(** Math.round((completed / length) * 100): the quotient is rounded to
    the nearest integer, halves upwards.  With the four bots every
    value is a multiple of 25 and exact in the engine's arithmetic. *)
Definition percent (completed length : nat) : Z :=
  ((200 * Z.of_nat completed + Z.of_nat length) `div` (2 * Z.of_nat length))%Z.

(** The continuation of installAll, [function() { completed++; ... }]. *)
Definition InstallAllCallback_body (cell : nat) (st : State) : State :=
  match completed st !! cell with
  | None => st
  | Some c =>
      let st := set_completed (<[cell := S c]> (completed st)) st in
      let st := set_progressFill (pretty (percent (S c) (length botNames)) +:+ "%") st in
      if bool_decide (S c = length botNames)
      then setTimeout (InstallAllFinished cell) 1000 st
      else st
  end.

(** The command lines handed to the shell: installBot's
    ['cmd.exe /c ' + cmd], startBot's [cmd], stopBot's ['cmd.exe /c ' + cmd]. *)
Definition installCommand (botPath : string) : string :=
  "cmd.exe /c " +:+ "cd /d " +:+ dq +:+ botPath +:+ dq +:+ " && npm install".

Definition startCommand (botName botPath : string) : string :=
  "start " +:+ dq +:+ botName +:+ " Bot" +:+ dq +:+ " cmd /k " +:+ dq +:+ "cd /d "
    +:+ botPath +:+ " && npm start" +:+ dq.

Definition stopCommand (botName : string) : string :=
  "cmd.exe /c " +:+ "taskkill /FI " +:+ dq +:+ "WINDOWTITLE eq " +:+ botName +:+ " Bot*"
    +:+ dq +:+ " /F".

(** [if (callback) callback();] *)
Definition invoke (callback : option callback) (st : State) : State :=
  match callback with
  | Some (InstallAllCallback cell) => InstallAllCallback_body cell st
  | None => st
  end.

Definition installBot (botName : string) (callback : option callback)
    (h : Host) (st : State) : State :=
  let botPath := currentDir st +:+ "\" +:+ botName in
  if negb (FolderExists botPath st) then
    let st := logMessage (botName +:+ ": Folder not found!") "error" st in
    invoke callback st
  else
    let packagePath := botPath +:+ "\package.json" in
    if negb (FileExists packagePath st) then
      let st := logMessage (botName +:+ ": package.json not found!") "error" st in
      invoke callback st
    else
      let st := updateStatus botName "installing" st in
      let st := logMessage (botName +:+ ": Installing dependencies...") "info" st in
      match raises h (installCommand botPath) with
      | None =>
          let st := launch (installCommand botPath) st in
          setInterval (InstallBotCheck botName callback) 500 st
      | Some message =>
          let st := logMessage (botName +:+ ": Installation error - " +:+ message) "error" st in
          let st := updateStatus botName "stopped" st in
          invoke callback st
      end.

(** The function installBot hands to setInterval, with [checkInterval]
    the id of that interval. *)
Definition InstallBotCheck_body (checkInterval : nat) (botName : string)
    (callback : option callback) (h : Host) (st : State) : State :=
  match exited h with
  | None => st
  | Some exitCode =>
      let st := clearInterval checkInterval st in
      let st :=
        if bool_decide (exitCode = 0%Z) then
          let st := logMessage (botName +:+ ": Dependencies installed successfully!") "success" st in
          updateStatus botName "stopped" st
        else
          let st :=
            logMessage (botName +:+ ": Installation failed with exit code " +:+ pretty exitCode)
              "error" st in
          updateStatus botName "stopped" st in
      invoke callback st
  end.

Definition startBot (botName : string) (h : Host) (st : State) : State :=
  let botPath := currentDir st +:+ "\" +:+ botName in
  if negb (FolderExists botPath st) then
    logMessage (botName +:+ ": Folder not found!") "error" st
  else if bool_decide (runningProcesses st !! botName = Some true) then
    logMessage (botName +:+ ": Bot is already running!") "warning" st
  else
    let st := logMessage (botName +:+ ": Starting bot...") "info" st in
    match raises h (startCommand botName botPath) with
    | None =>
        let st := launch (startCommand botName botPath) st in
        let st := set_runningProcesses (<[botName := true]> (runningProcesses st)) st in
        let st := updateStatus botName "running" st in
        logMessage (botName +:+ ": Bot started in new window!") "success" st
    | Some message => logMessage (botName +:+ ": Start error - " +:+ message) "error" st
    end.

Definition stopBot (botName : string) (h : Host) (st : State) : State :=
  let st := logMessage (botName +:+ ": Stopping bot...") "warning" st in
  match raises h (stopCommand botName) with
  | None =>
      let st := launch (stopCommand botName) st in
      let st := set_runningProcesses (<[botName := false]> (runningProcesses st)) st in
      let st := updateStatus botName "stopped" st in
      logMessage (botName +:+ ": Bot stopped!") "success" st
  | Some message => logMessage (botName +:+ ": Stop error - " +:+ message) "error" st
  end.

(** *** Batches (BatchCoordinator) *)

(** The loop [for (i ...) setTimeout(f(botNames[i]), index * unit)] that
    installAll and startAllBots share, from index [index] on. *)
Fixpoint stagger (f : string → task) (unit : N) (index : nat) (names : list string)
    (st : State) : State :=
  match names with
  | [] => st
  | botName :: rest =>
      stagger f unit (S index) rest (setTimeout (f botName) (N.of_nat index * unit) st)
  end.

Definition installAll (st : State) : State :=
  let st := set_progressBar "block" st in
  let st := set_progressFill "0%" st in
  let st := logMessage "Starting installation for all bots..." "info" st in
  let cell := length (completed st) in
  let st := set_completed (completed st ++ [0]) st in
  stagger (λ botName, InstallAllTimeout botName cell) 1000 0 botNames st.

Definition InstallAllFinished_body (st : State) : State :=
  let st := set_progressBar "none" st in
  let st := logMessage "All installations completed!" "success" st in
  alert "All dependencies installed successfully!" st.

Definition startAllBots (st : State) : State :=
  let st := logMessage "Starting all bots..." "info" st in
  stagger StartAllTimeout 500 0 botNames st.

Definition stopAllBots (h : Host) (st : State) : State :=
  let st := logMessage "Stopping all bots..." "warning" st in
  foldl (λ st botName, stopBot botName h st) st botNames.

(** *** The host's event loop *)

(** The buttons of the page (and the load of the page). *)
Inductive command : Type :=
| LoadConfig
| InstallAll
| InstallBot (botName : string)
| StartBot (botName : string)
| StopBot (botName : string)
| StartAllBots
| StopAllBots.

(** What happens between two handlers: time passes, the host serves a
    timer, the user presses a button, another program changes the disk.
    The script is single-threaded: a handler runs to its end before the
    next event. *)
Inductive event : Type :=
| Elapse (ms : N)
| Fire (id : nat) (h : Host)
| Click (c : command) (h : Host)
| DiskChange (folders : gset string) (files : gmap string content).

Definition handle (c : command) (h : Host) (st : State) : State :=
  match c with
  | LoadConfig => loadConfig st
  | InstallAll => installAll st
  | InstallBot botName => installBot botName None h st
  | StartBot botName => startBot botName h st
  | StopBot botName => stopBot botName h st
  | StartAllBots => startAllBots st
  | StopAllBots => stopAllBots h st
  end.

Definition runTask (id : nat) (job : task) (h : Host) (st : State) : State :=
  match job with
  | InstallAllTimeout botName cell => installBot botName (Some (InstallAllCallback cell)) h st
  | InstallAllFinished _ => InstallAllFinished_body st
  | InstallBotCheck botName callback => InstallBotCheck_body id botName callback h st
  | StartAllTimeout botName => startBot botName h st
  end.

Fixpoint find_timer (id : nat) (pending : list timer) : option timer :=
  match pending with
  | [] => None
  | t :: rest => if bool_decide (tid t = id) then Some t else find_timer id rest
  end.

(** The timer [id], when it is pending and the clock has reached its
    due time: a timer is never served early, and may be served late. *)
Definition ready (id : nat) (st : State) : option timer :=
  match find_timer id (timers st) with
  | Some t => if bool_decide (due t ≤ now st)%N then Some t else None
  | None => None
  end.

(** A served timeout is spent; a served interval is due again one
    period later. *)
Definition after_serving (t : timer) (st : State) : State :=
  match period t with
  | None => clearInterval (tid t) st
  | Some p =>
      set_timers
        ((λ t', if bool_decide (tid t' = tid t)
                then {| tid := tid t'; due := due t' + p; period := period t'; job := job t' |}
                else t') <$> timers st)
        st
  end.

(** The host serves timer [id]; nothing happens when it is not ready. *)
Definition fire (id : nat) (h : Host) (st : State) : State :=
  match ready id st with
  | Some t => runTask id (job t) h (after_serving t st)
  | None => st
  end.

Definition step (e : event) (st : State) : State :=
  match e with
  | Elapse ms => set_now (now st + ms) st
  | Fire id h => fire id h st
  | Click c h => handle c h st
  | DiskChange fo fi =>
      {| currentDir := currentDir st; folders := fo; files := fi;
         runningProcesses := runningProcesses st;
         statusIndicators := statusIndicators st; serverForm := serverForm st;
         logContainer := logContainer st; progressBar := progressBar st;
         progressFill := progressFill st; alerts := alerts st;
         launched := launched st; now := now st; timers := timers st;
         nextTimer := nextTimer st; completed := completed st |}
  end.

Definition run (evs : list event) (st : State) : State :=
  foldl (λ st e, step e st) st evs.

(** The timers served during a run, each with the time on the clock
    when it was served. *)
Fixpoint served (evs : list event) (st : State) : list (N * timer) :=
  match evs with
  | [] => []
  | e :: rest =>
      match e with
      | Fire id _ =>
          match ready id st with
          | Some t => (now st, t) :: served rest (step e st)
          | None => served rest (step e st)
          end
      | _ => served rest (step e st)
      end
  end.

(** A page just opened in [dir], over a disk. *)
Definition opened (dir : string) (fo : gset string) (fi : gmap string content) : State :=
  {| currentDir := dir; folders := fo; files := fi;
     runningProcesses := ∅; statusIndicators := ∅;
     serverForm := {| serverIP := EmptyString; serverVersion := EmptyString;
                      chatMessagesText := EmptyString; repeatMessages := EmptyString;
                      repeatDelayText := EmptyString |};
     logContainer := []; progressBar := "none"; progressFill := "0%";
     alerts := []; launched := []; now := 0; timers := []; nextTimer := 0;
     completed := [] |}.

End Manager.
Export Manager.

(** ** Vocabulary of the properties *)

(** Two paths of a document are apart when neither leads through the
    other. *)
Definition apart (p q : list string) : Prop :=
  ¬ p `prefix_of` q ∧ ¬ q `prefix_of` p.




(** What updateBotSettings leaves in a file that held [c]. *)
Definition propagated (serverConfig : ServerConfig) (c : option content) : option content :=
  match c with
  | Some (Text settings) =>
      match applyServerConfig serverConfig settings with
      | Ok settings' => Some (Text settings')
      | Throw _ => c
      end
  | _ => c
  end.

(** The log entries one round of updateBotSettings adds for [botName]. *)
Definition round_entries (serverConfig : ServerConfig) (botName : string) (st : State)
    : list LogEntry :=
  match files st !! settingsPath botName st with
  | None => []
  | Some (Malformed message) =>
      [{| className := "log-entry log-error";
          message := botName +:+ ": Error updating settings - " +:+ message |}]
  | Some (Text settings) =>
      match applyServerConfig serverConfig settings with
      | Ok _ =>
          [{| className := "log-entry log-success";
              message := botName +:+ ": Settings updated" |}]
      | Throw message =>
          [{| className := "log-entry log-error";
              message := botName +:+ ": Error updating settings - " +:+ message |}]
      end
  end.

(** *** Sample pages and disks *)

(** A settings.json with keys of its own beside the propagated ones. *)
Definition sampleSettings : json :=
  JObj [("server",
         JObj [("ip", JStr "localhost"); ("version", JStr "1.8"); ("port", JNum 25565)]);
        ("utils",
         JObj [("chat-messages",
                JObj [("enabled", JBool true); ("messages", JArr []);
                      ("repeat", JBool false); ("repeat-delay", JNum 1)])]);
        ("customField", JNum 42)].

(** A page opened in C:\bots where only MC2 has a folder, a package.json
    and a settings.json. *)
Definition samplePage : State :=
  opened "C:\bots" {["C:\bots\MC2"]}
    {["C:\bots\MC2\settings.json" := Text sampleSettings;
      "C:\bots\MC2\package.json" := Text (JObj [])]}.

(** A host where every shell call returns and no process has ended
    yet, one where the polled process has ended with [code], and one
    where every shell call raises. *)
Definition calm : Host := {| raises := λ _, None; exited := None |}.
Definition ended (code : Z) : Host := {| raises := λ _, None; exited := Some code |}.
Definition refusing : Host :=
  {| raises := λ _, Some "The system cannot find the file specified."; exited := None |}.

(** The log entry of a message. *)
Definition entry (type message : string) : LogEntry :=
  {| className := "log-entry log-" +:+ type; message := message |}.

(** A state without its log. *)
Definition without_log (st : State) : State := set_logContainer [] st.

(** The sample page after the load of the page and a successful start
    of MC2. *)
Definition sampleRunning : State :=
  startBot "MC2" calm (loadConfig samplePage).

(** *** The scheduler side of a step

    What a handler does to the clock, the pending timers, the next
    timer id and the [completed] variables, as a script of effects; the
    rest of the state only decides which script runs. *)

Inductive effect : Type :=
| Tick (ms : N)                                        (* time passes *)
| Arm (job : task) (delay : N) (period : option N)     (* setTimeout, setInterval *)
| Disarm (id : nat)                                    (* clearInterval *)
| Serve (t : timer)                                    (* the host serves [t] *)
| Report (callback : option callback)                  (* if (callback) callback() *)
| NewBatch.                                            (* var completed = 0 *)

Definition play1 (eff : effect) (st : State) : State :=
  match eff with
  | Tick ms => set_now (now st + ms) st
  | Arm job delay period => setTimer job delay period st
  | Disarm id => clearInterval id st
  | Serve t => after_serving t st
  | Report callback => invoke callback st
  | NewBatch => set_completed (completed st ++ [0]) st
  end.

Definition play (script : list effect) (st : State) : State :=
  foldl (λ st eff, play1 eff st) st script.

(** Two states with the same clock, timers, next id and counters. *)
Definition same_sched (st st' : State) : Prop :=
  now st' = now st ∧ timers st' = timers st
  ∧ nextTimer st' = nextTimer st ∧ completed st' = completed st.

(** installBot ends at once (folder or package.json missing, or the
    shell raises) or leaves a poll behind. *)
Definition installBot_ends (botName : string) (h : Host) (st : State) : bool :=
  let botPath := currentDir st +:+ "\" +:+ botName in
  negb (FolderExists botPath st)
  || negb (FileExists (botPath +:+ "\package.json") st)
  || bool_decide (is_Some (raises h (installCommand botPath))).

Definition installBot_script (botName : string) (callback : option callback)
    (h : Host) (st : State) : list effect :=
  if installBot_ends botName h st then [Report callback]
  else [Arm (InstallBotCheck botName callback) 500 (Some 500%N)].

Definition stagger_script (f : string → task) (unit : N) (index : nat)
    (names : list string) : list effect :=
  imap (λ i botName, Arm (f botName) (N.of_nat (index + i) * unit) None) names.

Definition script (e : event) (st : State) : list effect :=
  match e with
  | Elapse ms => [Tick ms]
  | DiskChange _ _ => []
  | Click InstallAll _ =>
      NewBatch
      :: stagger_script (λ b, InstallAllTimeout b (length (completed st))) 1000 0 botNames
  | Click StartAllBots _ => stagger_script StartAllTimeout 500 0 botNames
  | Click (InstallBot botName) h => installBot_script botName None h st
  | Click _ _ => []
  | Fire id h =>
      match ready id st with
      | None => []
      | Some t =>
          Serve t
          :: match job t with
             | InstallAllTimeout botName cell =>
                 installBot_script botName (Some (InstallAllCallback cell)) h st
             | InstallBotCheck botName callback =>
                 match exited h with
                 | Some _ => [Disarm id; Report callback]
                 | None => []
                 end
             | _ => []
             end
      end
  end.

(** Counting the pending timers whose task satisfies [P]. *)
Fixpoint count (P : task → bool) (pending : list timer) : nat :=
  match pending with
  | [] => 0
  | t :: rest => (if P (job t) then 1 else 0) + count P rest
  end.

(** The task still owes a report to the installAll call of [cell]: it
    is that call's timeout for a bot, or the poll of an install started
    by it. *)
Definition holds (cell : nat) (job : task) : bool :=
  match job with
  | InstallAllTimeout _ c => bool_decide (c = cell)
  | InstallBotCheck _ (Some (InstallAllCallback c)) => bool_decide (c = cell)
  | _ => false
  end.

(** The task is the all-complete announcement of the call of [cell]. *)
Definition announces (cell : nat) (job : task) : bool :=
  match job with
  | InstallAllFinished c => bool_decide (c = cell)
  | _ => false
  end.

Definition is_check (job : task) : bool :=
  match job with
  | InstallBotCheck _ _ => true
  | _ => false
  end.

(** The installAll call a task belongs to. *)
Definition task_cell (job : task) : option nat :=
  match job with
  | InstallAllTimeout _ cell => Some cell
  | InstallAllFinished cell => Some cell
  | InstallBotCheck _ (Some (InstallAllCallback cell)) => Some cell
  | InstallBotCheck _ None => None
  | StartAllTimeout _ => None
  end.

(** A pending timer as the script makes them: its id was given out
    already, it repeats exactly when it is a poll, and the call it
    belongs to was made. *)
Definition timer_ok (st : State) (t : timer) : Prop :=
  tid t < nextTimer st
  ∧ (is_Some (period t) ↔ is_check (job t) = true)
  ∧ ∀ cell, task_cell (job t) = Some cell → cell < length (completed st).

(** A state whose pending timers are as the script makes them, each
    under an id of its own. *)
Definition wf (st : State) : Prop :=
  NoDup (tid <$> timers st) ∧ Forall (timer_ok st) (timers st).

(** The books of the installAll call of [cell], when [served] of its
    announcements have been served: [c] bots have reported, the others
    are each held by one pending timer, and the announcement was set up
    once if all have reported and not at all otherwise. *)
Definition balanced (cell served : nat) (st : State) : Prop :=
  ∃ c, completed st !! cell = Some c
       ∧ c + count (holds cell) (timers st) = length botNames
       ∧ count (announces cell) (timers st) + served
         = (if bool_decide (c = length botNames) then 1 else 0).

(** The timers with ids [first], [first + 1], ... given out by a
    staggering loop over [names] do [f] for the names in order, and the
    one for the [i]-th name is not due before [base + i * unit]. *)
Definition slotted (f : string → task) (unit base : N) (first : nat)
    (names : list string) (st : State) : Prop :=
  first + length names ≤ nextTimer st
  ∧ ∀ t i b, t ∈ timers st → tid t = first + i → names !! i = Some b →
      job t = f b ∧ (base + N.of_nat i * unit ≤ due t)%N.

(** The announcement of the call of [cell] served by one event. *)
Definition announced (cell : nat) (e : event) (st : State) : nat :=
  match e with
  | Fire id _ =>
      match ready id st with
      | Some t => if announces cell (job t) then 1 else 0
      | None => 0
      end
  | _ => 0
  end.

(** A page opened in C:\bots where each of the four bots has its folder
    and its package.json. *)
Definition fullPage : State :=
  opened "C:\bots"
    {["C:\bots\MC1"; "C:\bots\MC2"; "C:\bots\MC3"; "C:\bots\MC4"]}
    {["C:\bots\MC1\package.json" := Text (JObj []);
      "C:\bots\MC2\package.json" := Text (JObj []);
      "C:\bots\MC3\package.json" := Text (JObj []);
      "C:\bots\MC4\package.json" := Text (JObj [])]}.

(** A run after installAll on the full page: the four timeouts are
    served, the four installs end in the order MC4, MC2, MC1, MC3 (MC2's
    with exit code 1), and the announcement is served. *)
Definition sampleInstalls : list event :=
  [Elapse 3000; Fire 0 calm; Fire 1 calm; Fire 2 calm; Fire 3 calm;
   Elapse 500; Fire 7 (ended 0); Fire 5 (ended 1); Fire 4 (ended 0); Fire 6 (ended 0);
   Elapse 1000; Fire 8 calm].

(** The two kinds of holders: the timeout of installAll for a bot, and
    the poll of an install it started. *)
Definition waits (cell : nat) (job : task) : bool :=
  match job with
  | InstallAllTimeout _ c => bool_decide (c = cell)
  | _ => false
  end.

Definition polls (cell : nat) (job : task) : bool :=
  match job with
  | InstallBotCheck _ (Some (InstallAllCallback c)) => bool_decide (c = cell)
  | _ => false
  end.

(** An event of a run in which only time passes and timers are served,
    the host answering every shell call by [r] and finding every polled
    process ended with [code]. *)
Definition draining (r : string → option string) (code : Z) (e : event) : Prop :=
  match e with
  | Elapse _ => True
  | Fire _ h => h = {| raises := r; exited := Some code |}
  | _ => False
  end.

(** The events that run startBot or stopBot: the three buttons, and a
    served timeout of startAllBots. *)
Definition starts_or_stops (e : event) (st : State) : bool :=
  match e with
  | Click (StartBot _) _ | Click (StopBot _) _ | Click StopAllBots _ => true
  | Fire id _ =>
      match ready id st with
      | Some t => match job t with StartAllTimeout _ => true | _ => false end
      | None => false
      end
  | _ => false
  end.

(** The task is the all-complete announcement of some installAll call. *)
Definition is_announcement (job : task) : bool :=
  match job with
  | InstallAllFinished _ => true
  | _ => false
  end.

(** The log, the list of launched commands and the list of alerts of
    [st'] continue those of [st]. *)
Definition grows (st st' : State) : Prop :=
  logContainer st `prefix_of` logContainer st'
  ∧ launched st `prefix_of` launched st'
  ∧ alerts st `prefix_of` alerts st'.

(** [st'] has the disk of [st], and its records continue those of [st]. *)
Definition same_disk (st st' : State) : Prop :=
  currentDir st' = currentDir st ∧ folders st' = folders st ∧ files st' = files st
  ∧ grows st st'.

(** Moreover the same bots are tracked as running. *)
Definition keeps (st st' : State) : Prop :=
  same_disk st st' ∧ runningProcesses st' = runningProcesses st.

(** An event of the page itself: anything but another program changing
    the disk. *)
Definition of_the_page (e : event) : Prop :=
  match e with
  | DiskChange _ _ => False
  | _ => True
  end.

(** A page whose global_config.json lists three accounts, the second of
    them null. *)
Definition nullAccountPage : State :=
  opened "C:\bots" ∅
    {["C:\bots\global_config.json" :=
        Text (JObj [("accounts",
                     JObj [("MC1", account "Bot1" EmptyString "offline");
                           ("MC2", JNull);
                           ("MC3", account "Bot3" EmptyString "offline")])])]}.

(** A page where MC1's settings.json has a [server] and no [utils]. *)
Definition halfSettingsPage : State :=
  opened "C:\bots" {["C:\bots\MC1"]}
    {["C:\bots\MC1\settings.json" :=
        Text (JObj [("server", JObj [("ip", JStr "localhost")])])]}.

(** * Properties *)

(** ** Chart smoothing *)

Section SmoothingFacts.
Context {num : Type}.
Variables (undefined one fifth : num) (add sub mul : num → num → num).

Local Abbreviation smooth := (Chart.smoothChartData undefined one fifth add sub mul).
Local Abbreviation loop := (Chart.smoothLoop undefined one add sub mul).

(** The loop only pushes: it leaves what was already in [smoothedData]
    in place and adds one entry per iteration. *)
Lemma smoothLoop_pushes data f n i smoothedData :
  ∃ pushed, loop data f n i smoothedData = smoothedData ++ pushed ∧ length pushed = n.
Proof.
  revert i smoothedData. induction n as [|n IH]; intros i sd; simpl.
  - exists []. by rewrite app_nil_r.
  - destruct (IH (S i) (sd ++ [add (mul (Chart.at_index undefined sd (i - 1)) (sub one f))
                                 (mul (Chart.at_index undefined data i) f)]))
      as (pushed & -> & Hlen).
    eexists (_ :: pushed). split; [by rewrite <- app_assoc|]. simpl. by rewrite Hlen.
Qed.

Lemma at_index_first (a : num) data : Chart.at_index undefined (a :: data) 0 = a.
Proof. done. Qed.

Lemma at_index_last (data : list num) :
  data ≠ [] → Some (Chart.at_index undefined data (length data - 1)) = last data.
Proof.
  intros Hne. unfold Chart.at_index. rewrite last_lookup.
  replace (pred (length data)) with (length data - 1) by lia.
  destruct (data !! (length data - 1)) eqn:E; [done|].
  apply lookup_ge_None in E. destruct data; [done|]. simpl in E. lia.
Qed.

(** C10.  smoothChartData gives back null/undefined input as it is,
    gives back a list of at most two entries unchanged for every
    smoothing factor (given or defaulted), and for every list returns a
    list of the same length with the same first and the same last entry,
    whatever the arithmetic of the entries is. *)
Theorem smoothChartData_shape (smoothingFactor : option num) :
  Chart.smoothChartData undefined one fifth add sub mul None smoothingFactor = None
  ∧ (∀ a b, Chart.smoothChartData undefined one fifth add sub mul (Some []) smoothingFactor = Some []
            ∧ Chart.smoothChartData undefined one fifth add sub mul (Some [a]) smoothingFactor = Some [a]
            ∧ Chart.smoothChartData undefined one fifth add sub mul (Some [a; b]) smoothingFactor = Some [a; b])
  ∧ (∀ data, ∃ smoothedData,
        Chart.smoothChartData undefined one fifth add sub mul (Some data) smoothingFactor = Some smoothedData
        ∧ length smoothedData = length data
        ∧ head smoothedData = head data
        ∧ last smoothedData = last data).
Proof.
  split; [done|]. split; [done|].
  intros data. unfold Chart.smoothChartData. case_bool_decide as Hlen.
  { by exists data. }
  destruct (smoothLoop_pushes data (default fifth smoothingFactor) (length data - 2) 1
              [Chart.at_index undefined data 0]) as (pushed & -> & Hpushed).
  eexists. split; [done|].
  destruct data as [|a data]; [simpl in Hlen; lia|].
  split; [|split].
  - rewrite !length_app. simpl in *. lia.
  - done.
  - rewrite last_snoc. by apply at_index_last.
Qed.

End SmoothingFacts.

(** ** Documents: what an assignment leaves alone *)

Section JsonFacts.

Lemma member_put_member_eq k v members : member k (put_member k v members) = Some v.
Proof.
  induction members as [|[k' v'] rest IH]; simpl.
  - by rewrite bool_decide_eq_true_2.
  - case_bool_decide; simpl; [by rewrite bool_decide_eq_true_2|].
    by rewrite bool_decide_eq_false_2.
Qed.

Lemma member_put_member_ne k k' v members :
  k ≠ k' → member k' (put_member k v members) = member k' members.
Proof.
  intros Hne. induction members as [|[k0 v0] rest IH]; simpl.
  - by rewrite bool_decide_eq_false_2.
  - case_bool_decide; simpl; subst.
    + by rewrite !(bool_decide_eq_false_2 (k' = k0)).
    + by rewrite IH.
Qed.

Lemma apart_cons_cons a p q : apart (a :: p) (a :: q) → apart p q.
Proof.
  intros [H1 H2]. split; intros H; [apply H1|apply H2]; by apply prefix_cons.
Qed.

Lemma apart_not_nil_l p : ¬ apart [] p.
Proof. intros [H _]. apply H, prefix_nil. Qed.

Lemma apart_not_nil_r p : ¬ apart p [].
Proof. intros [_ H]. apply H, prefix_nil. Qed.

(** A successful assignment to [path.k] changes nothing that is read
    along a path apart from it. *)
Lemma lookup_path_assign path k x doc doc' q :
  assign path k x doc = Ok doc' →
  apart q (path ++ [k]) →
  lookup_path q doc' = lookup_path q doc.
Proof.
  revert doc doc' q. induction path as [|p path IH]; intros doc doc' q Hassign Hapart.
  - destruct q as [|k' q]; [by apply apart_not_nil_l in Hapart|].
    simpl in Hassign. destruct doc; simplify_eq/=; try done.
    rewrite member_put_member_ne; [done|].
    intros ->. destruct Hapart as [_ H]. apply H. apply prefix_cons, prefix_nil.
  - destruct q as [|p' q]; [by apply apart_not_nil_l in Hapart|].
    simpl in Hassign. destruct doc; simplify_eq/=.
    destruct (member p members) as [child|] eqn:Hchild; simplify_eq/=.
    destruct (assign path k x child) as [child'|] eqn:Hchild'; simplify_eq/=.
    destruct (decide (p = p')) as [<-|Hne].
    + rewrite member_put_member_eq, Hchild. simpl.
      eapply IH; [done|]. by eapply apart_cons_cons.
    + by rewrite member_put_member_ne.
Qed.

(** A successful assignment to [path.k] is read back at [path.k] when
    [path] ends in an object. *)
Lemma lookup_path_assigned path k x doc doc' members :
  assign path k x doc = Ok doc' →
  lookup_path path doc = Some (JObj members) →
  lookup_path (path ++ [k]) doc' = Some x.
Proof.
  revert doc doc'. induction path as [|p path IH]; intros doc doc' Hassign Hlook.
  - simpl in *. simplify_eq/=. by rewrite member_put_member_eq.
  - simpl in *. destruct doc; simplify_eq/=.
    destruct (member p members0) as [child|] eqn:Hchild; simplify_eq/=.
    destruct (assign path k x child) as [child'|] eqn:Hchild'; simplify_eq/=.
    rewrite member_put_member_eq. simpl. by eapply IH.
Qed.

End JsonFacts.

(** ** Propagation of the server settings (updateBotSettings) *)

Section PropagationFacts.


Lemma res_bind_Ok {A B : Type} (r : res A) (k : A → res B) (b : B) :
  r ≫= k = Ok b → ∃ a, r = Ok a ∧ k a = Ok b.
Proof. destruct r as [a|m]; [by exists a|done]. Qed.



Lemma length_string_app s t : String.length (s +:+ t) = String.length s + String.length t.
Proof. induction s; simpl; [done|]. by rewrite IHs. Qed.

Lemma string_app_inj_r s1 s2 t : s1 +:+ t = s2 +:+ t → s1 = s2.
Proof.
  revert s2. induction s1 as [|a s1 IH]; intros [|b s2] Heq; simpl in *.
  - done.
  - apply (f_equal String.length) in Heq.
    rewrite ?length_string_app in Heq; simpl in Heq;
      rewrite ?length_string_app in Heq; lia.
  - apply (f_equal String.length) in Heq.
    rewrite ?length_string_app in Heq; simpl in Heq;
      rewrite ?length_string_app in Heq; lia.
  - injection Heq as -> Heq. f_equal. by apply IH.
Qed.

Lemma settingsPath_inj b b' st : settingsPath b st = settingsPath b' st → b = b'.
Proof.
  unfold settingsPath. intros Heq.
  apply (inj (String.app _)) in Heq. apply (inj (String.app _)) in Heq.
  by apply string_app_inj_r in Heq.
Qed.

Lemma currentDir_logMessage m t st : currentDir (logMessage m t st) = currentDir st.
Proof. done. Qed.

Lemma round_currentDir serverConfig b st :
  currentDir (updateBotSettings_round serverConfig b st) = currentDir st.
Proof.
  unfold updateBotSettings_round. destruct (negb _); [done|].
  by destruct (_ ≫= _).
Qed.

Lemma round_settingsPath serverConfig b b' st :
  settingsPath b' (updateBotSettings_round serverConfig b st) = settingsPath b' st.
Proof. unfold settingsPath. by rewrite round_currentDir. Qed.

(** One round rewrites at most the settings file of its bot. *)
Lemma round_files serverConfig b st path :
  files (updateBotSettings_round serverConfig b st) !! path
  = if decide (path = settingsPath b st)
    then propagated serverConfig (files st !! path)
    else files st !! path.
Proof.
  unfold updateBotSettings_round, FileExists, readDocument, propagated.
  case_decide as Hpath.
  - subst path. destruct (files st !! settingsPath b st) as [[settings|m]|] eqn:Hfile.
    + rewrite bool_decide_eq_true_2 by eauto. simpl.
      destruct (applyServerConfig serverConfig settings); simpl; [|done].
      apply lookup_insert_eq.
    + rewrite bool_decide_eq_true_2 by eauto. simpl. done.
    + rewrite bool_decide_eq_false_2 by (intros [? ?]; done). simpl. done.
  - destruct (negb _); [done|].
    destruct (_ ≫= _); simpl; [|done].
    by rewrite lookup_insert_ne.
Qed.

Lemma round_logContainer serverConfig b st :
  logContainer (updateBotSettings_round serverConfig b st)
  = logContainer st ++ round_entries serverConfig b st.
Proof.
  unfold updateBotSettings_round, round_entries, FileExists, readDocument.
  destruct (files st !! settingsPath b st) as [[settings|m]|] eqn:Hfile.
  - rewrite bool_decide_eq_true_2 by eauto. simpl.
    by destruct (applyServerConfig serverConfig settings).
  - rewrite bool_decide_eq_true_2 by eauto. done.
  - rewrite bool_decide_eq_false_2 by (intros [? ?]; done). simpl.
    by rewrite app_nil_r.
Qed.

Lemma round_missing serverConfig b st :
  files st !! settingsPath b st = None →
  updateBotSettings_round serverConfig b st = st.
Proof.
  intros Hnone. unfold updateBotSettings_round, FileExists.
  by rewrite Hnone, bool_decide_eq_false_2 by (intros [? ?]; done).
Qed.

(** A round creates no file: what is missing stays missing. *)
Lemma round_keeps_missing serverConfig b st path :
  files st !! path = None →
  files (updateBotSettings_round serverConfig b st) !! path = None.
Proof.
  intros Hnone. rewrite round_files, Hnone. by case_decide.
Qed.

Lemma round_entries_round serverConfig b b' st :
  b ≠ b' →
  round_entries serverConfig b' (updateBotSettings_round serverConfig b st)
  = round_entries serverConfig b' st.
Proof.
  intros Hne. unfold round_entries.
  rewrite round_settingsPath, round_files.
  rewrite decide_False; [done|]. intros Heq. by apply settingsPath_inj in Heq.
Qed.

Lemma over_currentDir names serverConfig st :
  currentDir (updateBotSettings_over names serverConfig st) = currentDir st.
Proof.
  revert st. induction names as [|b names IH]; intros st; [done|].
  unfold updateBotSettings_over in *. simpl. by rewrite IH, round_currentDir.
Qed.

(** The whole loop, file by file. *)
Lemma over_files names serverConfig st path :
  NoDup names →
  files (updateBotSettings_over names serverConfig st) !! path
  = if decide (path ∈ (λ b, settingsPath b st) <$> names)
    then propagated serverConfig (files st !! path)
    else files st !! path.
Proof.
  intros Hnodup. revert st. induction Hnodup as [|b names Hb Hnodup IH]; intros st.
  { done. }
  change (updateBotSettings_over (b :: names) serverConfig st)
    with (updateBotSettings_over names serverConfig (updateBotSettings_round serverConfig b st)).
  rewrite IH. rewrite round_files.
  assert ((λ b0, settingsPath b0 (updateBotSettings_round serverConfig b st)) <$> names
          = (λ b0, settingsPath b0 st) <$> names) as ->.
  { apply list_fmap_ext. intros ?? _. apply round_settingsPath. }
  rewrite fmap_cons.
  assert (path ∈ (λ b0, settingsPath b0 st) <$> names → path ≠ settingsPath b st) as Hfresh.
  { intros Hin ->. apply list_elem_of_fmap in Hin as (b' & Heq & Hin).
    apply settingsPath_inj in Heq. by subst. }
  repeat case_decide; try done; exfalso;
    first [ by apply Hfresh | set_solver ].
Qed.

(** The whole loop, log entry by log entry. *)
Lemma over_logContainer names serverConfig st :
  NoDup names →
  logContainer (updateBotSettings_over names serverConfig st)
  = logContainer st ++ mjoin ((λ b, round_entries serverConfig b st) <$> names).
Proof.
  intros Hnodup. revert st. induction Hnodup as [|b names Hb Hnodup IH]; intros st.
  { simpl. by rewrite app_nil_r. }
  change (updateBotSettings_over (b :: names) serverConfig st)
    with (updateBotSettings_over names serverConfig (updateBotSettings_round serverConfig b st)).
  rewrite IH, round_logContainer. simpl. rewrite <- app_assoc. do 3 f_equal.
  apply list_fmap_ext. intros i b' Hb'. apply round_entries_round.
  intros ->. apply Hb. by eapply list_elem_of_lookup_2.
Qed.

(** The loop skips a bot whose settings file is missing: the other
    rounds run as if the bot were not in the list. *)
Lemma over_skips names serverConfig st w :
  files st !! settingsPath w st = None →
  updateBotSettings_over names serverConfig st
  = updateBotSettings_over (filter (λ b, b ≠ w) names) serverConfig st.
Proof.
  revert st. induction names as [|b names IH]; intros st Hnone; [done|].
  change (updateBotSettings_over (b :: names) serverConfig st)
    with (updateBotSettings_over names serverConfig (updateBotSettings_round serverConfig b st)).
  destruct (decide (b = w)) as [->|Hne].
  - rewrite filter_cons_False by naive_solver.
    rewrite round_missing by done. by apply IH.
  - rewrite filter_cons_True by done.
    change (updateBotSettings_over (b :: filter (λ b0, b0 ≠ w) names) serverConfig st)
      with (updateBotSettings_over (filter (λ b0, b0 ≠ w) names) serverConfig
              (updateBotSettings_round serverConfig b st)).
    apply IH. rewrite round_settingsPath. by apply round_keeps_missing.
Qed.

Lemma NoDup_botNames : NoDup botNames.
Proof. unfold botNames. repeat constructor; set_solver. Qed.

End PropagationFacts.


(** C7, amended.  A bot whose settings.json is missing is skipped
    without any trace: its round changes nothing and logs nothing, the
    loop goes on as if the bot were not in the list, the log gains
    exactly the entries of the other rounds, and every settings file that
    is there is rewritten as usual. *)
Theorem updateBotSettings_skips_missing serverConfig st w :
  files st !! settingsPath w st = None →
  updateBotSettings_round serverConfig w st = st
  ∧ round_entries serverConfig w st = []
  ∧ updateBotSettings serverConfig st
    = updateBotSettings_over (filter (λ b, b ≠ w) botNames) serverConfig st
  ∧ logContainer (updateBotSettings serverConfig st)
    = logContainer st ++ mjoin ((λ b, round_entries serverConfig b st) <$> botNames)
  ∧ (∀ b, b ∈ botNames →
       files (updateBotSettings serverConfig st) !! settingsPath b st
       = propagated serverConfig (files st !! settingsPath b st)).
Proof.
  intros Hnone. split; [by apply round_missing|].
  split; [unfold round_entries; by rewrite Hnone|].
  split; [by apply over_skips|].
  split; [apply over_logContainer, NoDup_botNames|].
  intros b Hb. unfold updateBotSettings.
  rewrite over_files by apply NoDup_botNames.
  rewrite decide_True; [done|]. apply list_elem_of_fmap. by exists b.
Qed.

(** ** Loading the configuration (loadConfig, createDefaultConfig) *)




(** C7 as stated fails: with MC1's settings.json missing and MC2's in
    place, propagation logs MC2's update and not one word on MC1 (or on
    MC3 and MC4, equally missing): the skip is not logged. *)
Lemma skipped_document_is_not_logged :
  files samplePage !! settingsPath "MC1" samplePage = None
  ∧ logContainer (updateBotSettings defaultServer samplePage)
    = [{| className := "log-entry log-success"; message := "MC2: Settings updated" |}].
Proof. split; by vm_compute. Qed.

(** C7, amended, at the sample page and MC1. *)
Lemma updateBotSettings_skips_missing_MC1 :
  updateBotSettings_round defaultServer "MC1" samplePage = samplePage
  ∧ round_entries defaultServer "MC1" samplePage = []
  ∧ updateBotSettings defaultServer samplePage
    = updateBotSettings_over (filter (λ b, b ≠ "MC1") botNames) defaultServer samplePage
  ∧ logContainer (updateBotSettings defaultServer samplePage)
    = logContainer samplePage
      ++ mjoin ((λ b, round_entries defaultServer b samplePage) <$> botNames)
  ∧ (∀ b, b ∈ botNames →
       files (updateBotSettings defaultServer samplePage) !! settingsPath b samplePage
       = propagated defaultServer (files samplePage !! settingsPath b samplePage)).
Proof.
  apply (updateBotSettings_skips_missing defaultServer samplePage "MC1").
  by vm_compute.
Defined.


(** ** Install, start and stop of one bot *)

Section SupervisorFacts.

Local Arguments updateStatus : simpl never.
Local Arguments invoke : simpl never.

Lemma updateStatus_lookup botName status st :
  statusIndicators (updateStatus botName status st) !! botName
  = (λ _, "status-indicator status-" +:+ status) <$> statusIndicators st !! botName.
Proof.
  unfold updateStatus. destruct (statusIndicators st !! botName) eqn:E; simpl.
  - by rewrite lookup_insert_eq.
  - by rewrite E.
Qed.

Lemma updateStatus_lookup_ne botName status st b :
  b ≠ botName →
  statusIndicators (updateStatus botName status st) !! b = statusIndicators st !! b.
Proof.
  intros Hne. unfold updateStatus. destruct (statusIndicators st !! botName); simpl; [|done].
  by rewrite lookup_insert_ne.
Qed.

Lemma statusIndicators_invoke callback st :
  statusIndicators (invoke callback st) = statusIndicators st.
Proof.
  unfold invoke, InstallAllCallback_body. destruct callback as [[cell]|]; [|done].
  destruct (completed st !! cell); [|done]. by case_bool_decide.
Qed.

Lemma runningProcesses_invoke callback st :
  runningProcesses (invoke callback st) = runningProcesses st.
Proof.
  unfold invoke, InstallAllCallback_body. destruct callback as [[cell]|]; [|done].
  destruct (completed st !! cell); [|done]. by case_bool_decide.
Qed.

Lemma logContainer_invoke callback st :
  logContainer (invoke callback st) = logContainer st.
Proof.
  unfold invoke, InstallAllCallback_body. destruct callback as [[cell]|]; [|done].
  destruct (completed st !! cell); [|done]. by case_bool_decide.
Qed.

Lemma runningProcesses_updateStatus botName status st :
  runningProcesses (updateStatus botName status st) = runningProcesses st.
Proof. unfold updateStatus. by destruct (statusIndicators st !! botName). Qed.

Lemma logContainer_updateStatus botName status st :
  logContainer (updateStatus botName status st) = logContainer st.
Proof. unfold updateStatus. by destruct (statusIndicators st !! botName). Qed.

Lemma launched_updateStatus botName status st :
  launched (updateStatus botName status st) = launched st.
Proof. unfold updateStatus. by destruct (statusIndicators st !! botName). Qed.

Lemma without_log_logMessage m t st : without_log (logMessage m t st) = without_log st.
Proof. done. Qed.

Lemma without_log_updateStatus botName status st :
  without_log (updateStatus botName status st) = updateStatus botName status (without_log st).
Proof. unfold updateStatus. simpl. by destruct (statusIndicators st !! botName). Qed.

Lemma without_log_invoke callback st :
  without_log (invoke callback st) = invoke callback (without_log st).
Proof.
  unfold invoke, InstallAllCallback_body. destruct callback as [[cell]|]; [|done].
  simpl. destruct (completed st !! cell); [|done]. by case_bool_decide.
Qed.

(** C1, amended.  stopBot asks the shell to run the taskkill command
    and does not wait for it.  When the shell takes the command, the bot
    is no longer tracked as running (runningProcesses[botName] is false)
    and its status indicator, if the page has one, shows stopped,
    whatever becomes of the kill (the exit of the process is never
    looked at).  When shell.Run raises, the catch block only logs the
    error: tracking map and indicators stay as they were. *)
Theorem stopBot_outcome botName h st :
  match raises h (stopCommand botName) with
  | None =>
      runningProcesses (stopBot botName h st) = <[botName := false]> (runningProcesses st)
      ∧ runningProcesses (stopBot botName h st) !! botName = Some false
      ∧ statusIndicators (stopBot botName h st) !! botName
        = (λ _, "status-indicator status-stopped") <$> statusIndicators st !! botName
      ∧ launched (stopBot botName h st) = launched st ++ [stopCommand botName]
      ∧ logContainer (stopBot botName h st)
        = logContainer st ++ [entry "warning" (botName +:+ ": Stopping bot...");
                              entry "success" (botName +:+ ": Bot stopped!")]
  | Some message =>
      runningProcesses (stopBot botName h st) = runningProcesses st
      ∧ statusIndicators (stopBot botName h st) = statusIndicators st
      ∧ launched (stopBot botName h st) = launched st
      ∧ logContainer (stopBot botName h st)
        = logContainer st ++ [entry "warning" (botName +:+ ": Stopping bot...");
                              entry "error" (botName +:+ ": Stop error - " +:+ message)]
  end
  ∧ ∀ code, stopBot botName {| raises := raises h; exited := code |} st = stopBot botName h st.
Proof.
  split; [|done].
  unfold stopBot. destruct (raises h (stopCommand botName)) as [message|].
  - simpl. by rewrite <- app_assoc.
  - simpl.
    rewrite updateStatus_lookup, runningProcesses_updateStatus, launched_updateStatus,
      logContainer_updateStatus.
    simpl. rewrite lookup_insert_eq, <- app_assoc. done.
Qed.

(** C1 as stated fails: MC2 runs (started from its card), the shell
    raises on the taskkill command, and after stopBot MC2 is still
    tracked as running and its indicator still shows running. *)
Lemma stopBot_refused_keeps_running :
  runningProcesses sampleRunning !! "MC2" = Some true
  ∧ runningProcesses (stopBot "MC2" refusing sampleRunning) !! "MC2" = Some true
  ∧ statusIndicators (stopBot "MC2" refusing sampleRunning) !! "MC2"
    = Some "status-indicator status-running".
Proof. repeat split; by vm_compute. Qed.

(** C2.  The poll of installBot that finds the process ended, with
    whatever exit code, sets the status indicator of the bot to stopped
    and to nothing else, touches no other indicator and not the tracking
    map, and logs a success for code 0 and an error otherwise; but for
    that log entry the state after a failed install is the state after a
    successful one. *)
Theorem InstallBotCheck_exit_stops checkInterval botName callback r exitCode st :
  statusIndicators
    (InstallBotCheck_body checkInterval botName callback
       {| raises := r; exited := Some exitCode |} st)
  = statusIndicators (updateStatus botName "stopped" st)
  ∧ statusIndicators
      (InstallBotCheck_body checkInterval botName callback
         {| raises := r; exited := Some exitCode |} st) !! botName
    = (λ _, "status-indicator status-stopped") <$> statusIndicators st !! botName
  ∧ (∀ b, b ≠ botName →
       statusIndicators
         (InstallBotCheck_body checkInterval botName callback
            {| raises := r; exited := Some exitCode |} st) !! b
       = statusIndicators st !! b)
  ∧ runningProcesses
      (InstallBotCheck_body checkInterval botName callback
         {| raises := r; exited := Some exitCode |} st)
    = runningProcesses st
  ∧ logContainer
      (InstallBotCheck_body checkInterval botName callback
         {| raises := r; exited := Some exitCode |} st)
    = logContainer st
      ++ [if bool_decide (exitCode = 0%Z)
          then entry "success" (botName +:+ ": Dependencies installed successfully!")
          else entry "error"
                 (botName +:+ ": Installation failed with exit code " +:+ pretty exitCode)]
  ∧ without_log
      (InstallBotCheck_body checkInterval botName callback
         {| raises := r; exited := Some exitCode |} st)
    = without_log
        (InstallBotCheck_body checkInterval botName callback
           {| raises := r; exited := Some 0%Z |} st).
Proof.
  unfold InstallBotCheck_body. simpl.
  assert (∀ s, statusIndicators
                 (if bool_decide (exitCode = 0%Z)
                  then updateStatus botName "stopped"
                         (logMessage (botName +:+ ": Dependencies installed successfully!")
                            "success" s)
                  else updateStatus botName "stopped"
                         (logMessage
                            (botName +:+ ": Installation failed with exit code "
                               +:+ pretty exitCode) "error" s))
               = statusIndicators (updateStatus botName "stopped" s)) as Hind.
  { intros s. case_bool_decide; unfold updateStatus; simpl;
      by destruct (statusIndicators s !! botName). }
  rewrite !statusIndicators_invoke, !runningProcesses_invoke, !logContainer_invoke, !Hind.
  split; [unfold updateStatus, clearInterval; simpl;
          by destruct (statusIndicators st !! botName)|].
  split; [by rewrite updateStatus_lookup|].
  split; [intros b Hb; by rewrite updateStatus_lookup_ne|].
  split; [case_bool_decide; by rewrite runningProcesses_updateStatus|].
  split; [case_bool_decide; by rewrite logContainer_updateStatus|].
  case_bool_decide;
    by rewrite !without_log_invoke, !without_log_updateStatus, !without_log_logMessage.
Qed.




End SupervisorFacts.

(** ** The scheduler side of every step *)

Section SchedulerFacts.

Local Arguments updateStatus : simpl never.

Lemma same_sched_refl st : same_sched st st.
Proof. done. Qed.

Lemma same_sched_trans st1 st2 st3 :
  same_sched st1 st2 → same_sched st2 st3 → same_sched st1 st3.
Proof. intros (?&?&?&?) (?&?&?&?). repeat split; congruence. Qed.

Lemma same_sched_sym st1 st2 : same_sched st1 st2 → same_sched st2 st1.
Proof. intros (?&?&?&?). repeat split; congruence. Qed.

Lemma same_sched_logMessage m t st : same_sched st (logMessage m t st).
Proof. done. Qed.

Lemma same_sched_updateStatus b status st : same_sched st (updateStatus b status st).
Proof. unfold updateStatus. by destruct (statusIndicators st !! b). Qed.

(** An effect reads nothing but the scheduler side. *)
Lemma same_sched_play1 eff st st' :
  same_sched st st' → same_sched (play1 eff st) (play1 eff st').
Proof.
  intros (Hnow & Htimers & Hnext & Hcompleted).
  destruct eff as [ms|job delay period|id|t|callback|]; simpl.
  - repeat split; simpl; congruence.
  - unfold setTimer. repeat split; simpl; congruence.
  - unfold clearInterval. repeat split; simpl; congruence.
  - unfold after_serving, clearInterval. destruct (period t); repeat split; simpl; congruence.
  - unfold invoke, InstallAllCallback_body. destruct callback as [[cell]|]; [|done].
    rewrite Hcompleted. destruct (completed st !! cell) as [c|]; [|done].
    case_bool_decide; unfold setTimeout, setTimer; repeat split; simpl; congruence.
  - repeat split; simpl; congruence.
Qed.

Lemma same_sched_play effs st st' :
  same_sched st st' → same_sched (play effs st) (play effs st').
Proof.
  revert st st'. induction effs as [|eff effs IH]; intros st st' H; [done|].
  simpl. apply IH. by apply same_sched_play1.
Qed.

Lemma play_app effs effs' st : play (effs ++ effs') st = play effs' (play effs st).
Proof. unfold play. by rewrite foldl_app. Qed.

Lemma same_sched_renderCards members st :
  same_sched st (renderCards members st).1.
Proof.
  revert st. induction members as [|[b account] members IH]; intros st; [done|].
  simpl. destruct account; try done;
    (eapply same_sched_trans; [|apply IH]; done).
Qed.

Lemma same_sched_renderBotConfigs accounts st :
  same_sched st (renderBotConfigs accounts st).1.
Proof.
  unfold renderBotConfigs. destruct accounts as [[]|]; try done;
    (eapply same_sched_trans; [|apply same_sched_renderCards]; done).
Qed.

Lemma same_sched_loadConfig st : same_sched st (loadConfig st).
Proof.
  unfold loadConfig. destruct (negb _).
  - unfold createDefaultConfig.
    destruct (renderBotConfigs _ _) as [st' [m|]] eqn:E;
      (eapply same_sched_trans; [|apply same_sched_logMessage]);
      [|eapply same_sched_trans; [|by instantiate (1 := st')]];
      change st' with ((st', Some m).1) || change st' with ((st', @None string).1);
      rewrite <- E;
      (eapply same_sched_trans; [|apply same_sched_renderBotConfigs]); done.
  - destruct (_ ≫= _) as [accounts|m]; [|done].
    destruct (renderBotConfigs _ _) as [st' [m|]] eqn:E;
      (eapply same_sched_trans; [|apply same_sched_logMessage]);
      change st' with ((st', Some m).1) || change st' with ((st', @None string).1);
      rewrite <- E;
      (eapply same_sched_trans; [|apply same_sched_renderBotConfigs]); done.
Qed.

Lemma same_sched_startBot b h st : same_sched st (startBot b h st).
Proof.
  unfold startBot. destruct (negb _); [done|]. case_bool_decide; [done|].
  destruct (raises h _); [done|].
  eapply same_sched_trans; [|apply same_sched_logMessage].
  eapply same_sched_trans; [|apply same_sched_updateStatus]. done.
Qed.

Lemma same_sched_stopBot b h st : same_sched st (stopBot b h st).
Proof.
  unfold stopBot. destruct (raises h _); [done|].
  eapply same_sched_trans; [|apply same_sched_logMessage].
  eapply same_sched_trans; [|apply same_sched_updateStatus]. done.
Qed.

Lemma same_sched_stopAllBots h st : same_sched st (stopAllBots h st).
Proof.
  unfold stopAllBots.
  assert (∀ names s, same_sched s (foldl (λ st botName, stopBot botName h st) s names)) as H.
  { induction names as [|b names IH]; intros s; [done|]. simpl.
    eapply same_sched_trans; [apply (same_sched_stopBot b h)|apply IH]. }
  eapply same_sched_trans; [|apply H]. done.
Qed.

Lemma installBot_ends_same_sched b h st st' :
  currentDir st' = currentDir st → folders st' = folders st → files st' = files st →
  installBot_ends b h st' = installBot_ends b h st.
Proof.
  intros Hd Hfo Hfi. unfold installBot_ends, FolderExists, FileExists.
  by rewrite Hd, Hfo, Hfi.
Qed.

(** installBot, on the scheduler side, is its script. *)
Lemma installBot_script_sched b callback h st :
  same_sched (play (installBot_script b callback h st) st) (installBot b callback h st).
Proof.
  unfold installBot_script, installBot_ends, installBot.
  destruct (negb (FolderExists _ st)); simpl.
  { apply (same_sched_play1 (Report callback)). done. }
  destruct (negb (FileExists _ st)); simpl.
  { apply (same_sched_play1 (Report callback)). done. }
  destruct (raises h _) as [m|] eqn:E.
  - rewrite bool_decide_eq_true_2 by eauto. simpl.
    apply (same_sched_play1 (Report callback)).
    eapply same_sched_trans; [|apply same_sched_updateStatus].
    eapply same_sched_trans; [|apply same_sched_logMessage].
    eapply same_sched_trans; [|apply same_sched_logMessage].
    apply same_sched_updateStatus.
  - rewrite bool_decide_eq_false_2 by (intros [? ?]; done). simpl.
    apply (same_sched_play1 (Arm _ _ _)).
    eapply same_sched_trans; [|by instantiate (1 := logMessage _ _ _)].
    eapply same_sched_trans; [|apply same_sched_logMessage].
    apply same_sched_updateStatus.
Qed.

(** The staggering loop is its script, state for state. *)
Lemma stagger_play f unit index names st :
  stagger f unit index names st = play (stagger_script f unit index names) st.
Proof.
  revert index st. induction names as [|b names IH]; intros index st; [done|].
  simpl. rewrite IH. unfold stagger_script. simpl.
  rewrite Nat.add_0_r. unfold setTimeout. f_equal.
  apply imap_ext. intros i x _. simpl. do 3 f_equal. lia.
Qed.

Lemma installAll_script_sched st :
  same_sched (play (script (Click InstallAll calm) st) st) (installAll st).
Proof.
  unfold installAll. rewrite stagger_play. simpl script.
  change (play (NewBatch :: ?s) st) with (play s (play1 NewBatch st)).
  apply same_sched_play. done.
Qed.

Lemma startAllBots_script_sched st :
  same_sched (play (script (Click StartAllBots calm) st) st) (startAllBots st).
Proof.
  unfold startAllBots. rewrite stagger_play. simpl script.
  apply same_sched_play. done.
Qed.

Lemma after_serving_disk t st :
  currentDir (after_serving t st) = currentDir st
  ∧ folders (after_serving t st) = folders st
  ∧ files (after_serving t st) = files st.
Proof. unfold after_serving. by destruct (period t). Qed.

Lemma same_sched_InstallAllFinished_body st : same_sched st (InstallAllFinished_body st).
Proof. done. Qed.

(** Every step, on the scheduler side, is its script. *)
Lemma step_script e st : same_sched (play (script e st) st) (step e st).
Proof.
  destruct e as [ms|id h|c h|fo fi]; simpl.
  - done.
  - unfold fire. destruct (ready id st) as [t|]; [|done].
    change (play (Serve t :: ?s) st) with (play s (after_serving t st)).
    destruct (job t) as [b cell|cell|b callback|b]; simpl.
    + destruct (after_serving_disk t st) as (Hd & Hfo & Hfi).
      unfold installBot_script.
      rewrite <- (installBot_ends_same_sched b h st (after_serving t st) Hd Hfo Hfi).
      apply installBot_script_sched.
    + done.
    + unfold InstallBotCheck_body. destruct (exited h) as [exitCode|]; [|done].
      change (play [Disarm id; Report callback] (after_serving t st))
        with (play1 (Report callback) (clearInterval id (after_serving t st))).
      apply (same_sched_play1 (Report callback)). case_bool_decide;
        (eapply same_sched_trans; [|apply same_sched_updateStatus]); done.
    + apply same_sched_startBot.
  - destruct c as [| |b|b|b| |]; simpl.
    + apply same_sched_loadConfig.
    + apply installAll_script_sched.
    + apply installBot_script_sched.
    + apply same_sched_startBot.
    + apply same_sched_stopBot.
    + apply startAllBots_script_sched.
    + apply same_sched_stopAllBots.
  - done.
Qed.

End SchedulerFacts.

(** ** Staggered batches: no timer of the batch is served early *)

Section StaggerFacts.

Lemma find_timer_Some id pending t :
  find_timer id pending = Some t → t ∈ pending ∧ tid t = id.
Proof.
  induction pending as [|t' pending IH]; simpl; [done|].
  case_bool_decide.
  - intros [= ->]. split; [apply list_elem_of_here|done].
  - intros H'. destruct (IH H') as [? ?]. split; [by apply list_elem_of_further|done].
Qed.

Lemma ready_Some id st t :
  ready id st = Some t → t ∈ timers st ∧ tid t = id ∧ (due t ≤ now st)%N.
Proof.
  unfold ready. destruct (find_timer id (timers st)) as [t'|] eqn:E; [|done].
  case_bool_decide; [|done]. intros [= ->].
  destruct (find_timer_Some _ _ _ E). done.
Qed.

Lemma slotted_same_sched f unit base first names st st' :
  same_sched st st' → slotted f unit base first names st → slotted f unit base first names st'.
Proof. intros (_ & Ht & Hn & _). unfold slotted. by rewrite Ht, Hn. Qed.

Lemma slotted_setTimer f unit base first names job delay period st :
  slotted f unit base first names st →
  slotted f unit base first names (setTimer job delay period st).
Proof.
  intros [Hnext Hslots]. split; simpl; [lia|].
  intros t i b [Hold| ->%list_elem_of_singleton]%elem_of_app Hid Hb.
  - by eapply Hslots.
  - simpl in Hid. apply lookup_lt_Some in Hb. lia.
Qed.

Lemma slotted_clearInterval f unit base first names id st :
  slotted f unit base first names st →
  slotted f unit base first names (clearInterval id st).
Proof.
  intros [Hnext Hslots]. split; simpl; [done|].
  intros t i b [_ Hold]%list_elem_of_filter. by apply Hslots.
Qed.

Lemma slotted_after_serving f unit base first names t0 st :
  slotted f unit base first names st →
  slotted f unit base first names (after_serving t0 st).
Proof.
  intros Hs. unfold after_serving. destruct (period t0) as [p|].
  - destruct Hs as [Hnext Hslots]. split; simpl; [done|].
    intros t i b (t' & -> & Hold)%list_elem_of_fmap Hid Hb.
    case_bool_decide; simpl in *.
    + destruct (Hslots t' i b Hold Hid Hb) as [? ?]. split; [done|lia].
    + by apply Hslots.
  - by apply slotted_clearInterval.
Qed.

Lemma slotted_invoke f unit base first names callback st :
  slotted f unit base first names st →
  slotted f unit base first names (invoke callback st).
Proof.
  intros Hs. unfold invoke, InstallAllCallback_body.
  destruct callback as [[cell]|]; [|done].
  destruct (completed st !! cell) as [c|]; [|done].
  case_bool_decide.
  - apply slotted_setTimer. by destruct Hs.
  - by destruct Hs.
Qed.

Lemma slotted_play1 f unit base first names eff st :
  slotted f unit base first names st → slotted f unit base first names (play1 eff st).
Proof.
  intros Hs. destruct eff; simpl.
  - by destruct Hs.
  - by apply slotted_setTimer.
  - by apply slotted_clearInterval.
  - by apply slotted_after_serving.
  - by apply slotted_invoke.
  - by destruct Hs.
Qed.

Lemma slotted_play f unit base first names effs st :
  slotted f unit base first names st → slotted f unit base first names (play effs st).
Proof.
  revert st. induction effs as [|eff effs IH]; intros st Hs; [done|].
  simpl. by apply IH, slotted_play1.
Qed.

Lemma slotted_step f unit base first names e st :
  slotted f unit base first names st → slotted f unit base first names (step e st).
Proof.
  intros Hs. eapply slotted_same_sched; [apply step_script|]. by apply slotted_play.
Qed.

(** What the staggering loop leaves on the scheduler side. *)
Lemma stagger_sched f unit index names st :
  now (stagger f unit index names st) = now st
  ∧ nextTimer (stagger f unit index names st) = nextTimer st + length names
  ∧ completed (stagger f unit index names st) = completed st
  ∧ timers (stagger f unit index names st)
    = timers st
      ++ imap (λ i b, {| tid := nextTimer st + i;
                         due := now st + N.of_nat (index + i) * unit;
                         period := None; job := f b |}) names.
Proof.
  revert index st. induction names as [|b names IH]; intros index st; simpl.
  - by rewrite Nat.add_0_r, app_nil_r.
  - destruct (IH (S index) (setTimeout (f b) (N.of_nat index * unit) st))
      as (-> & -> & -> & ->). simpl.
    split; [done|]. split; [lia|]. split; [done|].
    rewrite <- app_assoc. simpl. rewrite !Nat.add_0_r. do 2 f_equal.
    apply imap_ext. intros i x _. simpl. f_equal; [lia|]. do 3 f_equal. lia.
Qed.

Lemma installAll_sched st :
  now (installAll st) = now st
  ∧ nextTimer (installAll st) = nextTimer st + length botNames
  ∧ completed (installAll st) = completed st ++ [0]
  ∧ timers (installAll st)
    = timers st
      ++ imap (λ i b, {| tid := nextTimer st + i;
                         due := now st + N.of_nat (0 + i) * 1000;
                         period := None;
                         job := InstallAllTimeout b (length (completed st)) |}) botNames.
Proof.
  change (installAll st)
    with (stagger (λ botName, InstallAllTimeout botName (length (completed st)))
            1000 0 botNames
            (set_completed (completed st ++ [0])
               (logMessage "Starting installation for all bots..." "info"
                  (set_progressFill "0%" (set_progressBar "block" st))))).
  destruct (stagger_sched (λ botName, InstallAllTimeout botName (length (completed st)))
              1000 0 botNames
              (set_completed (completed st ++ [0])
                 (logMessage "Starting installation for all bots..." "info"
                    (set_progressFill "0%" (set_progressBar "block" st)))))
    as (-> & -> & -> & ->).
  done.
Qed.

Lemma startAllBots_sched st :
  now (startAllBots st) = now st
  ∧ nextTimer (startAllBots st) = nextTimer st + length botNames
  ∧ completed (startAllBots st) = completed st
  ∧ timers (startAllBots st)
    = timers st
      ++ imap (λ i b, {| tid := nextTimer st + i;
                         due := now st + N.of_nat (0 + i) * 500;
                         period := None;
                         job := StartAllTimeout b |}) botNames.
Proof.
  change (startAllBots st)
    with (stagger StartAllTimeout 500 0 botNames
            (logMessage "Starting all bots..." "info" st)).
  destruct (stagger_sched StartAllTimeout 500 0 botNames
              (logMessage "Starting all bots..." "info" st))
    as (-> & -> & -> & ->).
  done.
Qed.

(** After the loop the timers it made are slotted, when the ids of the
    timers pending before were given out already. *)
Lemma stagger_slotted f unit names st :
  Forall (λ t, tid t < nextTimer st) (timers st) →
  slotted f unit (now st) (nextTimer st) names (stagger f unit 0 names st).
Proof.
  intros Hold. destruct (stagger_sched f unit 0 names st) as (_ & Hnext & _ & Htimers).
  split; [lia|]. rewrite Htimers.
  intros t i b [Hin|Hin]%elem_of_app Hid Hb.
  - rewrite Forall_forall in Hold. apply Hold in Hin. lia.
  - apply list_elem_of_lookup in Hin as [j Hj].
    rewrite list_lookup_imap in Hj.
    destruct (names !! j) as [b'|] eqn:Hb'; simplify_eq/=.
    assert (j = i) as -> by lia. simplify_eq. split; [done|lia].
Qed.

(** A slotted timer is never served before its slot. *)
Lemma slotted_served f unit base first names evs st τ t i b :
  slotted f unit base first names st →
  (τ, t) ∈ served evs st → tid t = first + i → names !! i = Some b →
  job t = f b ∧ (base + N.of_nat i * unit ≤ τ)%N.
Proof.
  revert st. induction evs as [|e evs IH]; intros st Hs Hin Hid Hb.
  { by apply elem_of_nil in Hin. }
  assert ((τ, t) ∈ served evs (step e st) → job t = f b ∧ (base + N.of_nat i * unit ≤ τ)%N)
    as Hlater.
  { intros Hin'. eapply IH; [|done..]. by apply slotted_step. }
  simpl in Hin. destruct e as [ms|id h|c h|fo fi]; try by apply Hlater.
  destruct (ready id st) as [t0|] eqn:Hready; [|by apply Hlater].
  apply elem_of_cons in Hin as [[= -> ->]|Hin]; [|by apply Hlater].
  destruct (ready_Some _ _ _ Hready) as (Hpending & _ & Hdue).
  destruct Hs as [_ Hslots]. destruct (Hslots t0 i b Hpending Hid Hb) as [? ?].
  split; [done|lia].
Qed.

End StaggerFacts.

(** ** Well-formed timers are kept by every step *)

Section WellFormedFacts.

Local Arguments play : simpl never.
Local Arguments stagger_script : simpl never.
Local Arguments installBot_script : simpl never.

Lemma timer_ok_mono st st' t :
  nextTimer st ≤ nextTimer st' → length (completed st) ≤ length (completed st') →
  timer_ok st t → timer_ok st' t.
Proof.
  intros Hn Hc (Hid & Hkind & Hcell). split; [lia|]. split; [done|].
  intros cell Hjob. apply Hcell in Hjob. lia.
Qed.

Lemma wf_same_sched st st' : same_sched st st' → wf st → wf st'.
Proof.
  intros (_ & Ht & Hn & Hc) [Hnodup Hok]. split; rewrite Ht; [done|].
  eapply Forall_impl; [done|]. intros t. apply timer_ok_mono; [by rewrite Hn|by rewrite Hc].
Qed.

Lemma wf_setTimer job delay period st :
  wf st →
  (is_Some period ↔ is_check job = true) →
  (∀ cell, task_cell job = Some cell → cell < length (completed st)) →
  wf (setTimer job delay period st).
Proof.
  intros [Hnodup Hok] Hkind Hcell. split; simpl.
  - rewrite fmap_app. apply NoDup_app. split; [done|]. split; [|apply NoDup_singleton].
    intros id (t & -> & Hin)%list_elem_of_fmap Hnew. simpl in Hnew.
    apply list_elem_of_singleton in Hnew.
    rewrite Forall_forall in Hok. destruct (Hok t Hin) as [? _]. lia.
  - apply Forall_app. split.
    + eapply Forall_impl; [done|]. intros t. apply timer_ok_mono; simpl; lia.
    + apply Forall_singleton. split; simpl; [lia|done].
Qed.

Lemma wf_clearInterval id st : wf st → wf (clearInterval id st).
Proof.
  intros [Hnodup Hok]. split; simpl.
  - apply (NoDup_fmap_2_strong tid).
    + intros t t' [_ Ht]%list_elem_of_filter [_ Ht']%list_elem_of_filter Heq.
      assert (∀ l : list timer, NoDup (tid <$> l) → t ∈ l → t' ∈ l → t = t') as Hinj.
      { clear -Heq. induction l as [|a l IH]; [by intros _ ?%elem_of_nil|].
        rewrite fmap_cons, NoDup_cons. intros [Ha Hl] Hin Hin'.
        apply elem_of_cons in Hin as [->|Hin]; apply elem_of_cons in Hin' as [->|Hin'].
        - done.
        - exfalso. apply Ha. rewrite Heq. apply list_elem_of_fmap. eauto.
        - exfalso. apply Ha. rewrite <- Heq. apply list_elem_of_fmap. eauto.
        - by apply IH. }
      by apply (Hinj (timers st)).
    + apply NoDup_filter. by eapply NoDup_fmap_1.
  - rewrite Forall_forall in Hok. apply Forall_forall.
    intros t [_ Hin]%list_elem_of_filter. by apply Hok.
Qed.

Lemma wf_after_serving t0 st : wf st → wf (after_serving t0 st).
Proof.
  intros Hwf. unfold after_serving. destruct (period t0) as [p|]; [|by apply wf_clearInterval].
  destruct Hwf as [Hnodup Hok]. split; simpl.
  - rewrite <- list_fmap_compose.
    erewrite list_fmap_ext; [done|]. intros i t _. simpl. by case_bool_decide.
  - apply Forall_fmap. eapply Forall_impl; [done|].
    intros t (Hid & Hkind & Hcell). simpl. by case_bool_decide.
Qed.

Lemma wf_invoke callback st : wf st → wf (invoke callback st).
Proof.
  intros Hwf. unfold invoke, InstallAllCallback_body.
  destruct callback as [[cell]|]; [|done].
  destruct (completed st !! cell) as [c|] eqn:Hc; [|done].
  assert (wf (set_completed (<[cell := S c]> (completed st)) st)) as Hwf'.
  { destruct Hwf as [Hnodup Hok]. split; [done|]. simpl.
    eapply Forall_impl; [done|]. intros t. apply timer_ok_mono; simpl; [done|].
    by rewrite length_insert. }
  case_bool_decide; [|by eapply wf_same_sched].
  apply wf_setTimer.
  - by eapply wf_same_sched.
  - simpl. split; [by intros [? ?]|done].
  - simpl. intros ? [= <-]. rewrite length_insert. by eapply lookup_lt_Some.
Qed.

Lemma wf_installBot_script b callback h st :
  wf st →
  (∀ cell, callback = Some (InstallAllCallback cell) → cell < length (completed st)) →
  wf (play (installBot_script b callback h st) st).
Proof.
  intros Hwf Hcell. unfold installBot_script, play.
  destruct (installBot_ends b h st); simpl.
  - by apply wf_invoke.
  - apply wf_setTimer; [done|simpl; split; [done|by eauto]|].
    simpl. destruct callback as [[cell]|]; [|done]. intros ? [= <-]. by apply Hcell.
Qed.

Lemma wf_stagger_script f unit index names st :
  wf st →
  (∀ b, is_check (f b) = false) →
  (∀ b cell, task_cell (f b) = Some cell → cell < length (completed st)) →
  wf (play (stagger_script f unit index names) st).
Proof.
  intros Hwf Hkind Hcell. rewrite <- stagger_play.
  revert index st Hwf Hcell. induction names as [|b names IH]; intros index st Hwf Hcell; [done|].
  simpl. apply IH.
  - apply wf_setTimer; [done| |by apply Hcell].
    rewrite Hkind. split; [by intros [? ?]|done].
  - done.
Qed.

Lemma wf_script e st : wf st → wf (play (script e st) st).
Proof.
  intros Hwf. destruct e as [ms|id h|c h|fo fi]; simpl; try done.
  - destruct (ready id st) as [t|] eqn:Hready; [|done].
    change (play (Serve t :: ?s) st) with (play s (after_serving t st)).
    pose proof (wf_after_serving t st Hwf) as Hwf'.
    destruct (ready_Some _ _ _ Hready) as (Hpending & _ & _).
    destruct Hwf as [_ Hok]. rewrite Forall_forall in Hok.
    destruct (Hok t Hpending) as (_ & _ & Hcell).
    assert (completed (after_serving t st) = completed st) as Hcompleted.
    { unfold after_serving. by destruct (period t). }
    destruct (job t) as [b cell|cell|b callback|b] eqn:Hjob; simpl; try done.
    + destruct (after_serving_disk t st) as (Hd & Hfo & Hfi).
      unfold installBot_script.
      rewrite <- (installBot_ends_same_sched b h st (after_serving t st) Hd Hfo Hfi).
      apply wf_installBot_script; [done|]. intros ? [= <-]. rewrite Hcompleted. by apply Hcell.
    + destruct (exited h); [|done]. unfold play. simpl.
      by apply wf_invoke, wf_clearInterval.
  - destruct c as [| |b|b|b| |]; simpl; try done.
    + change (play (NewBatch :: ?s) st) with (play s (play1 NewBatch st)).
      apply wf_stagger_script; [| done |].
      * destruct Hwf as [Hnodup Hok]. split; [done|]. simpl.
        eapply Forall_impl; [done|]. intros t. apply timer_ok_mono; simpl; [done|].
        rewrite length_app. lia.
      * intros b cell [= <-]. simpl. rewrite length_app. simpl. lia.
    + by apply wf_installBot_script.
    + by apply wf_stagger_script.
Qed.

Lemma wf_step e st : wf st → wf (step e st).
Proof. intros Hwf. eapply wf_same_sched; [apply step_script|]. by apply wf_script. Qed.

Lemma wf_run evs st : wf st → wf (run evs st).
Proof.
  revert st. induction evs as [|e evs IH]; intros st Hwf; [done|].
  simpl. by apply IH, wf_step.
Qed.

Lemma wf_opened dir fo fi : wf (opened dir fo fi).
Proof. split; simpl; constructor. Qed.

End WellFormedFacts.

(** ** The books of an installAll call are kept by every step *)

Section BalanceFacts.

Local Arguments play : simpl never.
Local Arguments stagger_script : simpl never.
Local Arguments installBot_script : simpl never.
Local Arguments invoke : simpl never.

(** Arithmetic on the books: the four bots are four. *)
Local Ltac books :=
  change (length botNames) with 4 in *; repeat case_bool_decide; try split; lia.

Lemma count_app P l l' : count P (l ++ l') = count P l + count P l'.
Proof. induction l as [|t l IH]; simpl; [done|]. rewrite IH. lia. Qed.

Lemma filter_absent id (l : list timer) :
  id ∉ tid <$> l → filter (λ t, tid t ≠ id) l = l.
Proof.
  induction l as [|t l IH]; [done|]. rewrite fmap_cons, not_elem_of_cons. intros [Hne Hl].
  rewrite filter_cons_True by done. by rewrite IH.
Qed.

(** Taking a pending timer away lowers a count by what it counted for. *)
Lemma count_remove P l t :
  NoDup (tid <$> l) → t ∈ l →
  count P (filter (λ t', tid t' ≠ tid t) l) + (if P (job t) then 1 else 0) = count P l.
Proof.
  induction l as [|t' l IH]; [by intros _ ?%elem_of_nil|].
  rewrite fmap_cons, NoDup_cons. intros [Hfresh Hnodup] Hin.
  apply elem_of_cons in Hin as [->|Hin].
  - rewrite filter_cons_False by naive_solver.
    rewrite filter_absent by done. simpl. lia.
  - assert (tid t' ≠ tid t) as Hne.
    { intros Heq. apply Hfresh. rewrite Heq. apply list_elem_of_fmap. eauto. }
    rewrite filter_cons_True by done. simpl. specialize (IH Hnodup Hin). lia.
Qed.

Lemma count_reschedule P (g : timer → timer) l :
  (∀ t, job (g t) = job t) → count P (g <$> l) = count P l.
Proof.
  intros Hg. induction l as [|t l IH]; [done|].
  rewrite fmap_cons. simpl. by rewrite Hg, IH.
Qed.

Lemma filter_reschedule id (g : timer → timer) (l : list timer) :
  (∀ t, tid (g t) = tid t) → (∀ t, tid t ≠ id → g t = t) →
  filter (λ t, tid t ≠ id) (g <$> l) = filter (λ t, tid t ≠ id) l.
Proof.
  intros Hid Hg. induction l as [|t l IH]; [done|]. rewrite fmap_cons.
  destruct (decide (tid t = id)) as [Heq|Hne].
  - rewrite !filter_cons_False; [done|naive_solver|rewrite Hid; naive_solver].
  - rewrite Hg by done. rewrite !filter_cons_True by done. by rewrite IH.
Qed.

Lemma balanced_same_sched cell k st st' :
  same_sched st st' → balanced cell k st → balanced cell k st'.
Proof. intros (_ & Ht & _ & Hc). unfold balanced. by rewrite Ht, Hc. Qed.

(** What a report does on the scheduler side. *)
Lemma invoke_sched cell st c :
  completed st !! cell = Some c →
  completed (invoke (Some (InstallAllCallback cell)) st) = <[cell := S c]> (completed st)
  ∧ timers (invoke (Some (InstallAllCallback cell)) st)
    = timers st
      ++ (if bool_decide (S c = length botNames)
          then [{| tid := nextTimer st; due := now st + 1000; period := None;
                   job := InstallAllFinished cell |}]
          else []).
Proof.
  intros Hc. unfold invoke, InstallAllCallback_body. rewrite Hc.
  case_bool_decide; simpl; [done|]. by rewrite app_nil_r.
Qed.

(** A report for the call of [cell'], made when the timer that held it
    is gone, keeps the books of the call of [cell]. *)
Lemma balanced_report cell k cell' st c :
  completed st !! cell = Some c →
  c + count (holds cell) (timers st) + (if bool_decide (cell' = cell) then 1 else 0)
  = length botNames →
  count (announces cell) (timers st) + k = (if bool_decide (c = length botNames) then 1 else 0) →
  balanced cell k (invoke (Some (InstallAllCallback cell')) st).
Proof.
  intros Hc Hholds Hann.
  destruct (completed st !! cell') as [c'|] eqn:Hc'.
  2:{ unfold invoke, InstallAllCallback_body. rewrite Hc'.
      assert (cell' ≠ cell) as Hne by (intros ->; congruence).
      rewrite bool_decide_eq_false_2 in Hholds by done.
      exists c. split; [done|]. split; [lia|done]. }
  destruct (invoke_sched cell' st c' Hc') as [Hcompleted Htimers].
  unfold balanced. rewrite Hcompleted, Htimers, !count_app.
  destruct (decide (cell' = cell)) as [->|Hne].
  - rewrite bool_decide_eq_true_2 in Hholds by done. simplify_eq. exists (S c).
    split; [apply list_lookup_insert_eq; by eapply lookup_lt_Some|].
    rewrite bool_decide_eq_false_2 in Hann by lia.
    case_bool_decide; simpl; rewrite ?bool_decide_eq_true_2 by done; books.
  - rewrite bool_decide_eq_false_2 in Hholds by done.
    exists c. split; [by rewrite list_lookup_insert_ne|].
    case_bool_decide; simpl; rewrite ?(bool_decide_eq_false_2 (cell' = cell)) by done; books.
Qed.

(** A poll set up for the call of [cell'], when the timeout that held
    the report is gone, keeps the books of the call of [cell]. *)
Lemma balanced_poll cell k cell' b st c :
  completed st !! cell = Some c →
  c + count (holds cell) (timers st) + (if bool_decide (cell' = cell) then 1 else 0)
  = length botNames →
  count (announces cell) (timers st) + k = (if bool_decide (c = length botNames) then 1 else 0) →
  balanced cell k
    (setTimer (InstallBotCheck b (Some (InstallAllCallback cell'))) 500 (Some 500%N) st).
Proof.
  intros Hc Hholds Hann. exists c. simpl. rewrite !count_app. simpl.
  split; [done|]. books.
Qed.

(** A timer set up for something else leaves the books alone. *)
Lemma balanced_other_timer cell k job delay period st :
  holds cell job = false → announces cell job = false →
  balanced cell k st → balanced cell k (setTimer job delay period st).
Proof.
  intros Hh Ha (c & Hc & Hholds & Hann). exists c. simpl. rewrite !count_app. simpl.
  rewrite Hh, Ha. split; [done|]. books.
Qed.

Lemma balanced_stagger_script cell k f unit index names st :
  (∀ b, holds cell (f b) = false) → (∀ b, announces cell (f b) = false) →
  balanced cell k st → balanced cell k (play (stagger_script f unit index names) st).
Proof.
  intros Hh Ha. rewrite <- stagger_play.
  revert index st. induction names as [|b names IH]; intros index st Hb; [done|].
  simpl. apply IH. by apply balanced_other_timer.
Qed.

(** What serving a pending timer does to the counts: a timeout is
    taken away, a poll stays (and is taken away by its clearInterval). *)
Lemma after_serving_counts t st :
  wf st → t ∈ timers st →
  completed (after_serving t st) = completed st
  ∧ (∀ P, count P (timers (after_serving t st))
          + (if is_check (job t) then 0 else if P (job t) then 1 else 0)
          = count P (timers st))
  ∧ (∀ P, count P (timers (clearInterval (tid t) (after_serving t st)))
          + (if P (job t) then 1 else 0)
          = count P (timers st)).
Proof.
  intros [Hnodup Hok] Hin. rewrite Forall_forall in Hok.
  destruct (Hok t Hin) as (_ & Hkind & _).
  unfold after_serving. destruct (period t) as [p|] eqn:Hp.
  - assert (is_check (job t) = true) as -> by (apply Hkind; eauto).
    split; [done|]. split.
    + intros P. simpl. rewrite count_reschedule; [lia|].
      intros t'. by case_bool_decide.
    + intros P. simpl. rewrite filter_reschedule.
      * by apply count_remove.
      * intros t'. by case_bool_decide.
      * intros t' Hne. by rewrite bool_decide_eq_false_2.
  - assert (is_check (job t) = false) as ->.
    { destruct (is_check (job t)); [|done]. destruct Hkind as [_ Hsome].
      by destruct (Hsome eq_refl). }
    split; [done|]. split.
    + intros P. simpl. by apply count_remove.
    + intros P. simpl.
      assert (filter (λ t', tid t' ≠ tid t) (filter (λ t', tid t' ≠ tid t) (timers st))
              = filter (λ t', tid t' ≠ tid t) (timers st)) as ->.
      { apply list_filter_filter_l. done. }
      by apply count_remove.
Qed.

(** Every step keeps the books of the installAll call of [cell]; a
    served announcement moves from the pending side to the served. *)
Lemma balanced_step cell k e st :
  wf st → balanced cell k st → balanced cell (k + announced cell e st) (step e st).
Proof.
  intros Hwf Hb. eapply balanced_same_sched; [apply step_script|].
  destruct e as [ms|id h|c0 h|fo fi]; simpl script; simpl announced;
    rewrite ?Nat.add_0_r; try done.
  - destruct (ready id st) as [t|] eqn:Hready; [|by rewrite Nat.add_0_r].
    change (play (Serve t :: ?s) st) with (play s (after_serving t st)).
    destruct (ready_Some _ _ _ Hready) as (Hpending & Hid & _).
    destruct (after_serving_counts t st Hwf Hpending) as (Hcompleted & Hserved & Hcleared).
    destruct Hb as (c & Hc & Hholds & Hann).
    pose proof (Hserved (holds cell)) as Hh. pose proof (Hserved (announces cell)) as Ha.
    pose proof (Hcleared (holds cell)) as Hh'. pose proof (Hcleared (announces cell)) as Ha'.
    rewrite Hid in Hh', Ha'.
    destruct (job t) as [b cell'|cell'|b callback|b] eqn:Hjob; simpl in *.
    + unfold installBot_script. destruct (installBot_ends b h st); unfold play; simpl.
      * eapply balanced_report; [by rewrite Hcompleted| |]; books.
      * eapply balanced_poll; [by rewrite Hcompleted| |]; books.
    + unfold play; simpl. exists c. rewrite Hcompleted. split; [done|]. books.
    + destruct (exited h) as [exitCode|]; unfold play; simpl.
      * destruct callback as [[cell']|].
        -- eapply balanced_report; [simpl; by rewrite Hcompleted| |]; simpl; books.
        -- exists c. simpl. split; [by rewrite Hcompleted|]. books.
      * exists c. rewrite Hcompleted. split; [done|]. books.
    + unfold play; simpl. exists c. rewrite Hcompleted. split; [done|]. books.
  - destruct c0 as [| |b|b|b| |]; simpl; try done.
    + change (play (NewBatch :: ?s) st) with (play s (play1 NewBatch st)).
      destruct Hb as (c & Hc & Hholds & Hann).
      pose proof (lookup_lt_Some _ _ _ Hc) as Hlt.
      apply balanced_stagger_script.
      * intros b. simpl. apply bool_decide_eq_false_2. lia.
      * done.
      * exists c. simpl. split; [by rewrite lookup_app_l|done].
    + unfold installBot_script. destruct (installBot_ends b h st); unfold play; simpl.
      * done.
      * by apply balanced_other_timer.
    + by apply balanced_stagger_script.
Qed.

(** The announcements of the call of [cell] served during a run. *)
Lemma served_announced cell e evs st :
  count (announces cell) ((served (e :: evs) st).*2)
  = announced cell e st + count (announces cell) ((served evs (step e st)).*2).
Proof.
  simpl. destruct e as [ms|id h|c h|fo fi]; simpl; try done.
  by destruct (ready id st).
Qed.

Lemma balanced_run cell k evs st :
  wf st → balanced cell k st →
  balanced cell (k + count (announces cell) ((served evs st).*2)) (run evs st).
Proof.
  revert k st. induction evs as [|e evs IH]; intros k st Hwf Hb.
  { simpl. by rewrite Nat.add_0_r. }
  rewrite served_announced, Nat.add_assoc.
  change (run (e :: evs) st) with (run evs (step e st)).
  apply IH; [by apply wf_step|by apply balanced_step].
Qed.

(** No pending timer belongs to a call that is still to be made. *)
Lemma fresh_cell_counts st (l : list timer) :
  Forall (timer_ok st) l →
  count (holds (length (completed st))) l = 0
  ∧ count (announces (length (completed st))) l = 0.
Proof.
  induction 1 as [|t l (_ & _ & Hcell) _ [IHh IHa]]; [done|]. simpl.
  rewrite IHh, IHa.
  destruct (job t) as [b c|c|b [[c]|]|b]; simpl in *; try done;
    rewrite bool_decide_eq_false_2; try done;
    intros ->; specialize (Hcell _ eq_refl); lia.
Qed.

(** installAll opens the books of its call: nothing reported, the four
    timeouts pending, nothing announced. *)
Lemma installAll_balanced st :
  wf st → balanced (length (completed st)) 0 (installAll st).
Proof.
  intros [_ Hok].
  destruct (installAll_sched st) as (_ & _ & Hcompleted & Htimers).
  destruct (fresh_cell_counts st (timers st) Hok) as [Hh Ha].
  exists 0. rewrite Hcompleted, Htimers, !count_app, Hh, Ha.
  split; [by rewrite lookup_app_r, Nat.sub_diag|].
  simpl. rewrite !bool_decide_eq_true_2 by done. done.
Qed.

End BalanceFacts.

(** ** The batches (installAll, startAllBots, stopAllBots) *)

Section BatchFacts.

Local Arguments updateStatus : simpl never.

Lemma wf_ids st : wf st → Forall (λ t, tid t < nextTimer st) (timers st).
Proof. intros [_ Hok]. eapply Forall_impl; [done|]. by intros t [? _]. Qed.

Lemma installAll_slotted st :
  wf st →
  slotted (λ b, InstallAllTimeout b (length (completed st))) 1000 (now st) (nextTimer st)
    botNames (installAll st).
Proof.
  intros Hwf.
  apply (stagger_slotted (λ b, InstallAllTimeout b (length (completed st))) 1000 botNames
           (set_completed (completed st ++ [0])
              (logMessage "Starting installation for all bots..." "info"
                 (set_progressFill "0%" (set_progressBar "block" st))))).
  exact (wf_ids st Hwf).
Qed.

Lemma startAllBots_slotted st :
  wf st →
  slotted StartAllTimeout 500 (now st) (nextTimer st) botNames (startAllBots st).
Proof.
  intros Hwf.
  apply (stagger_slotted StartAllTimeout 500 botNames
           (logMessage "Starting all bots..." "info" st)).
  exact (wf_ids st Hwf).
Qed.

(** X1.  installAll sets one timeout per bot, the one of the
    i-th bot due i seconds after the call (the first at the call
    itself); in every run of the page it is served no earlier than that,
    however late the others are served and in whatever order the
    installs end.  The books of the call are kept by count: at every
    point of every run, [c] bots have reported, each of the others is
    held by exactly one pending timer, and the all-complete announcement
    has been set up (pending or already served) exactly once if c is
    the number of bots, and not at all before. *)
Theorem installAll_staggered_and_counted st evs :
  wf st →
  timers (installAll st)
  = timers st
    ++ imap (λ i b, {| tid := nextTimer st + i;
                       due := now st + N.of_nat (0 + i) * 1000;
                       period := None;
                       job := InstallAllTimeout b (length (completed st)) |}) botNames
  ∧ (∀ τ t i b,
       (τ, t) ∈ served evs (installAll st) →
       tid t = nextTimer st + i → botNames !! i = Some b →
       job t = InstallAllTimeout b (length (completed st))
       ∧ (now st + N.of_nat i * 1000 ≤ τ)%N)
  ∧ ∃ c,
      completed (run evs (installAll st)) !! length (completed st) = Some c
      ∧ c + count (holds (length (completed st))) (timers (run evs (installAll st)))
        = length botNames
      ∧ count (announces (length (completed st))) (timers (run evs (installAll st)))
        + count (announces (length (completed st))) ((served evs (installAll st)).*2)
        = (if bool_decide (c = length botNames) then 1 else 0).
Proof.
  intros Hwf. split; [apply installAll_sched|]. split.
  - intros τ t i b Hserved Hid Hb.
    by apply (slotted_served (λ b, InstallAllTimeout b (length (completed st))) 1000 (now st)
                (nextTimer st) botNames evs (installAll st) τ t i b
                (installAll_slotted st Hwf)).
  - apply (balanced_run (length (completed st)) 0 evs (installAll st)).
    + eapply wf_same_sched; [apply (step_script (Click InstallAll calm))|].
      by apply wf_script.
    + by apply installAll_balanced.
Qed.

Lemma launched_stopBot b h st :
  launched (stopBot b h st)
  = launched st
    ++ match raises h (stopCommand b) with Some _ => [] | None => [stopCommand b] end.
Proof.
  unfold stopBot. destruct (raises h (stopCommand b)); simpl.
  - by rewrite app_nil_r.
  - by rewrite launched_updateStatus.
Qed.

Lemma launched_stopBots h names st :
  launched (foldl (λ st botName, stopBot botName h st) st names)
  = launched st
    ++ (stopCommand <$> filter (λ b, raises h (stopCommand b) = None) names).
Proof.
  revert st. induction names as [|b names IH]; intros st; simpl.
  - by rewrite app_nil_r.
  - rewrite IH, launched_stopBot. rewrite <- app_assoc. f_equal.
    destruct (raises h (stopCommand b)) eqn:E.
    + by rewrite filter_cons_False by (by rewrite E).
    + by rewrite filter_cons_True by done.
Qed.

(** X2.  startAllBots runs the loop of installAll with a unit
    of 500 ms: one timeout per bot, the one of the i-th bot due i * 500
    ms after the call, and served in every run no earlier than that.
    stopAllBots sets no timer and lets no time pass: inside the one
    handler it hands the kill commands to the shell in the order of the
    bots (those the shell takes). *)
Theorem startAllBots_staggered_stopAllBots_at_once st evs h :
  wf st →
  timers (startAllBots st)
  = timers st
    ++ imap (λ i b, {| tid := nextTimer st + i;
                       due := now st + N.of_nat (0 + i) * 500;
                       period := None;
                       job := StartAllTimeout b |}) botNames
  ∧ (∀ τ t i b,
       (τ, t) ∈ served evs (startAllBots st) →
       tid t = nextTimer st + i → botNames !! i = Some b →
       job t = StartAllTimeout b ∧ (now st + N.of_nat i * 500 ≤ τ)%N)
  ∧ timers (stopAllBots h st) = timers st
  ∧ now (stopAllBots h st) = now st
  ∧ launched (stopAllBots h st)
    = launched st
      ++ (stopCommand <$> filter (λ b, raises h (stopCommand b) = None) botNames).
Proof.
  intros Hwf. split; [apply startAllBots_sched|]. split.
  - intros τ t i b Hserved Hid Hb.
    by apply (slotted_served StartAllTimeout 500 (now st) (nextTimer st) botNames evs
                (startAllBots st) τ t i b (startAllBots_slotted st Hwf)).
  - destruct (same_sched_stopAllBots h st) as (Hnow & Htimers & _).
    split; [done|]. split; [done|].
    unfold stopAllBots. by rewrite launched_stopBots.
Qed.

End BatchFacts.

(** A timeout may be served late: the host is busy for a second after installAll
    (an alert box is open, say), then serves the timeouts of MC1 and MC2
    one after the other: MC2's install is issued in the same millisecond
    as MC1's, not a second later. *)
Lemma installAll_second_install_on_the_heels :
  served [Elapse 1000; Fire 0 calm; Fire 1 calm] (installAll fullPage)
  = [(1000%N, {| tid := 0; due := 0; period := None; job := InstallAllTimeout "MC1" 0 |});
     (1000%N, {| tid := 1; due := 1000; period := None; job := InstallAllTimeout "MC2" 0 |})].
Proof. by vm_compute. Qed.

(** X1 on the full page: after the sample run, with the
    installs ended out of order, the four have reported, no timer holds
    a report, and the announcement was set up and served once. *)
Lemma installAll_sample_books :
  ∃ c,
    completed (run sampleInstalls (installAll fullPage)) !! 0 = Some c
    ∧ c + count (holds 0) (timers (run sampleInstalls (installAll fullPage))) = 4
    ∧ count (announces 0) (timers (run sampleInstalls (installAll fullPage)))
      + count (announces 0) ((served sampleInstalls (installAll fullPage)).*2)
      = (if bool_decide (c = 4) then 1 else 0).
Proof.
  destruct (installAll_staggered_and_counted fullPage sampleInstalls (wf_opened _ _ _))
    as (_ & _ & Hbooks).
  exact Hbooks.
Defined.

(** The same lateness after startAllBots: the host is busy for half a second after
    startAllBots, then serves the timeouts of MC1 and MC2 one after the
    other: MC2's start is issued in the same millisecond as MC1's. *)
Lemma startAllBots_second_start_on_the_heels :
  served [Elapse 500; Fire 0 calm; Fire 1 calm] (startAllBots fullPage)
  = [(500%N, {| tid := 0; due := 0; period := None; job := StartAllTimeout "MC1" |});
     (500%N, {| tid := 1; due := 500; period := None; job := StartAllTimeout "MC2" |})].
Proof. by vm_compute. Qed.

(** X2 on the full page: the four kill commands leave in the
    order of the bots, inside the one handler. *)
Lemma stopAllBots_sample :
  launched (stopAllBots calm fullPage) = stopCommand <$> botNames
  ∧ timers (stopAllBots calm fullPage) = []
  ∧ now (stopAllBots calm fullPage) = 0%N.
Proof.
  destruct (startAllBots_staggered_stopAllBots_at_once fullPage [] calm (wf_opened _ _ _))
    as (_ & _ & Htimers & Hnow & Hlaunched).
  split; [by rewrite Hlaunched|]. by split.
Defined.

(** ** Every install reports once, and the batch completes *)

Section CompletionFacts.

Local Arguments play : simpl never.
Local Arguments stagger_script : simpl never.
Local Arguments installBot_script : simpl never.
Local Arguments invoke : simpl never.
Local Arguments updateStatus : simpl never.

Lemma count_holds cell l :
  count (holds cell) l = count (waits cell) l + count (polls cell) l.
Proof.
  induction l as [|t l IH]; [done|]. simpl. rewrite IH.
  destruct (job t) as [b c|c|b [[c]|]|b]; simpl; try done; case_bool_decide; lia.
Qed.

Lemma count_positive P l : 0 < count P l → ∃ t, t ∈ l ∧ P (job t) = true.
Proof.
  induction l as [|t l IH]; simpl; [lia|]. destruct (P (job t)) eqn:E.
  - intros _. exists t. split; [apply list_elem_of_here|done].
  - intros Hpos. destruct IH as (t' & Hin & Ht'); [lia|].
    exists t'. split; [by apply list_elem_of_further|done].
Qed.

Lemma find_timer_pending l t :
  NoDup (tid <$> l) → t ∈ l → find_timer (tid t) l = Some t.
Proof.
  induction l as [|t' l IH]; [by intros _ ?%elem_of_nil|].
  rewrite fmap_cons, NoDup_cons. intros [Hfresh Hnodup] Hin. simpl.
  apply elem_of_cons in Hin as [->|Hin].
  - by rewrite bool_decide_eq_true_2.
  - rewrite bool_decide_eq_false_2; [by apply IH|].
    intros Heq. apply Hfresh. rewrite Heq. apply list_elem_of_fmap. eauto.
Qed.

(** A report sets up no timer that holds a report. *)
Lemma count_invoke P callback st :
  (∀ cell, P (InstallAllFinished cell) = false) →
  count P (timers (invoke callback st)) = count P (timers st).
Proof.
  intros HP. unfold invoke, InstallAllCallback_body.
  destruct callback as [[cell]|]; [|done].
  destruct (completed st !! cell); [|done].
  case_bool_decide; simpl; [|done]. rewrite count_app. simpl. rewrite HP. lia.
Qed.

(** Serving a timer that holds a report of the call of [cell], under a
    host that finds the polled process ended, brings the call nearer to
    its end: a timeout goes (its install reports, or leaves a poll), a
    poll goes (its install reports). *)
Lemma serve_holder_progress cell r code t st :
  wf st → t ∈ timers st → (due t ≤ now st)%N → holds cell (job t) = true →
  2 * count (waits cell) (timers (step (Fire (tid t) {| raises := r; exited := Some code |}) st))
  + count (polls cell) (timers (step (Fire (tid t) {| raises := r; exited := Some code |}) st))
  < 2 * count (waits cell) (timers st) + count (polls cell) (timers st).
Proof.
  intros Hwf Hin Hdue Hholds.
  destruct (step_script (Fire (tid t) {| raises := r; exited := Some code |}) st)
    as (_ & -> & _ & _).
  assert (ready (tid t) st = Some t) as Hready.
  { unfold ready. destruct Hwf as [Hnodup _]. rewrite find_timer_pending by done.
    by rewrite bool_decide_eq_true_2. }
  simpl script. rewrite Hready.
  change (play (Serve t :: ?s) st) with (play s (after_serving t st)).
  destruct (after_serving_counts t st Hwf Hin) as (_ & Hserved & Hcleared).
  pose proof (Hserved (waits cell)) as Hw. pose proof (Hserved (polls cell)) as Hp.
  pose proof (Hcleared (waits cell)) as Hw'. pose proof (Hcleared (polls cell)) as Hp'.
  destruct (job t) as [b c|c|b [[c]|]|b]; simpl in *; try done.
  - unfold installBot_script.
    destruct (installBot_ends b _ st); unfold play; simpl.
    + rewrite !count_invoke by done. rewrite Hholds in Hw. cbv iota in Hw.
      clear -Hw Hp. lia.
    + rewrite !count_app. simpl. rewrite Hholds in Hw |- *. cbv iota in Hw |- *.
      clear -Hw Hp. lia.
  - unfold play. simpl. rewrite !count_invoke by done.
    rewrite Hholds in Hp'. cbv iota in Hp'.
    change (timers (clearInterval (tid t) (after_serving t st)))
      with (filter (λ t0, tid t0 ≠ tid t) (timers (after_serving t st))).
    clear -Hw' Hp'. lia.
Qed.

(** From any point of a run after installAll, letting time pass and
    serving the timers that hold a report, with every polled process
    found ended, leaves no report outstanding. *)
Lemma drain cell r code m :
  ∀ st k, wf st → balanced cell k st →
    2 * count (waits cell) (timers st) + count (polls cell) (timers st) ≤ m →
    ∃ more, Forall (draining r code) more
            ∧ count (holds cell) (timers (run more st)) = 0.
Proof.
  induction m as [|m IH]; intros st k Hwf Hb Hm.
  { exists []. split; [done|]. simpl. rewrite count_holds. lia. }
  destruct (count (holds cell) (timers st)) as [|n] eqn:Hcount.
  { exists []. by split. }
  destruct (count_positive (holds cell) (timers st)) as (t & Hin & Hholds); [lia|].
  set (h := {| raises := r; exited := Some code |}).
  set (st1 := step (Elapse (due t)) st).
  assert (wf st1) as Hwf1 by (by apply wf_step).
  assert (balanced cell (k + 0) st1) as Hb1 by (by apply (balanced_step cell k (Elapse (due t)))).
  assert (t ∈ timers st1) as Hin1 by done.
  assert (due t ≤ now st1)%N as Hdue1 by (simpl; lia).
  pose proof (serve_holder_progress cell r code t st1 Hwf1 Hin1 Hdue1 Hholds) as Hless.
  fold h in Hless.
  destruct (IH (step (Fire (tid t) h) st1) (k + 0 + announced cell (Fire (tid t) h) st1))
    as (more & Hmore & Hdone).
  - by apply wf_step.
  - by apply balanced_step.
  - change (timers st1) with (timers st) in Hless. lia.
  - exists (Elapse (due t) :: Fire (tid t) h :: more). split; [|done].
    repeat constructor; done.
Qed.

Lemma percent_quarters k : percent k (length botNames) = (25 * Z.of_nat k)%Z.
Proof.
  unfold percent. change (length botNames) with 4.
  change (2 * Z.of_nat 4)%Z with 8%Z. change (Z.of_nat 4) with 4%Z.
  symmetry. apply Z.div_unique with (r := 4%Z); lia.
Qed.

(** What one report leaves: the counter one up, the bar a quarter on. *)
Lemma invoke_report cell c st :
  completed st !! cell = Some c →
  completed (invoke (Some (InstallAllCallback cell)) st) !! cell = Some (S c)
  ∧ progressFill (invoke (Some (InstallAllCallback cell)) st)
    = pretty (25 * Z.of_nat (S c))%Z +:+ "%".
Proof.
  intros Hc. destruct (invoke_sched cell st c Hc) as [-> _].
  split; [apply list_lookup_insert_eq; by eapply lookup_lt_Some|].
  unfold invoke, InstallAllCallback_body. rewrite Hc, percent_quarters.
  by case_bool_decide.
Qed.

(** X3.  installBot reports to its caller exactly once on every way
    out.  When the folder or package.json is missing or the shell raises
    on the install command, installBot with a continuation is installBot
    without one followed by one call of the continuation, and leaves no
    timer behind.  Otherwise it starts the process, leaves the counter
    alone and hands the continuation to one poll.  A poll that finds the
    process running does nothing at all; the poll that finds it ended
    (whatever the exit code) clears itself and calls the continuation
    once.  Each report raises the counter of installAll by one and moves
    the progress bar by a quarter. *)
Theorem installBot_reports_once botName cell c h st :
  completed st !! cell = Some c →
  (if installBot_ends botName h st
   then installBot botName (Some (InstallAllCallback cell)) h st
        = invoke (Some (InstallAllCallback cell)) (installBot botName None h st)
        ∧ timers (installBot botName None h st) = timers st
        ∧ completed (installBot botName (Some (InstallAllCallback cell)) h st) !! cell
          = Some (S c)
        ∧ progressFill (installBot botName (Some (InstallAllCallback cell)) h st)
          = pretty (25 * Z.of_nat (S c))%Z +:+ "%"
   else completed (installBot botName (Some (InstallAllCallback cell)) h st) = completed st
        ∧ timers (installBot botName (Some (InstallAllCallback cell)) h st)
          = timers st
            ++ [{| tid := nextTimer st; due := now st + 500; period := Some 500%N;
                   job := InstallBotCheck botName (Some (InstallAllCallback cell)) |}])
  ∧ ∀ checkInterval,
      match exited h with
      | None =>
          InstallBotCheck_body checkInterval botName (Some (InstallAllCallback cell)) h st
          = st
      | Some _ =>
          InstallBotCheck_body checkInterval botName (Some (InstallAllCallback cell)) h st
          = invoke (Some (InstallAllCallback cell))
              (InstallBotCheck_body checkInterval botName None h st)
          ∧ timers (InstallBotCheck_body checkInterval botName None h st)
            = filter (λ t, tid t ≠ checkInterval) (timers st)
          ∧ completed
              (InstallBotCheck_body checkInterval botName
                 (Some (InstallAllCallback cell)) h st) !! cell
            = Some (S c)
      end.
Proof.
  intros Hc. split.
  - unfold installBot_ends, installBot.
    destruct (negb (FolderExists _ st)); simpl.
    { split; [done|]. split; [done|]. by apply invoke_report. }
    destruct (negb (FileExists _ st)); simpl.
    { split; [done|]. split; [done|]. by apply invoke_report. }
    destruct (raises h _) as [m|] eqn:E.
    + rewrite bool_decide_eq_true_2 by eauto.
      split; [done|]. split.
      { destruct (same_sched_updateStatus botName "stopped"
                    (logMessage (botName +:+ ": Installation error - " +:+ m) "error"
                       (logMessage (botName +:+ ": Installing dependencies...") "info"
                          (updateStatus botName "installing" st)))) as (_ & Ht & _).
        unfold invoke. rewrite Ht. simpl.
        by destruct (same_sched_updateStatus botName "installing" st) as (_ & -> & _). }
      apply invoke_report.
      destruct (same_sched_updateStatus botName "stopped"
                  (logMessage (botName +:+ ": Installation error - " +:+ m) "error"
                     (logMessage (botName +:+ ": Installing dependencies...") "info"
                        (updateStatus botName "installing" st)))) as (_ & _ & _ & ->).
      simpl.
      by destruct (same_sched_updateStatus botName "installing" st) as (_ & _ & _ & ->).
    + rewrite bool_decide_eq_false_2 by (intros [? ?]; done). simpl.
      destruct (same_sched_updateStatus botName "installing" st) as (-> & -> & -> & ->).
      done.
  - intros checkInterval. unfold InstallBotCheck_body.
    destruct (exited h) as [exitCode|]; [|done].
    split; [done|]. split.
    + unfold invoke. case_bool_decide;
        match goal with
        | |- timers (updateStatus ?b ?s ?x) = _ =>
            by destruct (same_sched_updateStatus b s x) as (_ & -> & _)
        end.
    + apply invoke_report. case_bool_decide;
        match goal with
        | |- completed (updateStatus ?b ?s ?x) !! _ = _ =>
            by destruct (same_sched_updateStatus b s x) as (_ & _ & _ & ->)
        end.
Qed.

(** X4.  A batch of installs can always be brought to its end: from
    any point of any run after installAll, if from then on only time
    passes and timers are served, with every polled process found ended
    (whatever the shell answers and whatever the exit code), then after
    finitely many such events the four bots have reported and no timer
    holds a report any more. *)
Theorem installAll_completes st evs r code :
  wf st →
  ∃ more,
    Forall (draining r code) more
    ∧ completed (run (evs ++ more) (installAll st)) !! length (completed st)
      = Some (length botNames)
    ∧ count (holds (length (completed st))) (timers (run (evs ++ more) (installAll st))) = 0.
Proof.
  intros Hwf.
  assert (wf (installAll st)) as Hwf0.
  { eapply wf_same_sched; [apply (step_script (Click InstallAll calm))|].
    by apply wf_script. }
  pose proof (balanced_run _ 0 evs _ Hwf0 (installAll_balanced st Hwf)) as Hb.
  pose proof (wf_run evs _ Hwf0) as Hwf1.
  destruct (drain (length (completed st)) r code _ _ _ Hwf1 Hb (Nat.le_refl _))
    as (more & Hmore & Hdone).
  exists more. split; [done|].
  assert (run (evs ++ more) (installAll st) = run more (run evs (installAll st))) as ->.
  { unfold run. by rewrite foldl_app. }
  split; [|done].
  destruct (balanced_run _ _ more _ Hwf1 Hb) as (c & Hc & Hholds & _).
  rewrite Hdone in Hholds. rewrite Hc. f_equal. lia.
Qed.

End CompletionFacts.

(** X3 on the full page, right after installAll: MC1's install starts
    its process and leaves a poll; the poll that finds it ended reports
    once. *)
Lemma installBot_reports_once_sample :
  completed (installBot "MC1" (Some (InstallAllCallback 0)) calm (installAll fullPage))
  = [0]
  ∧ completed
      (InstallBotCheck_body 4 "MC1" (Some (InstallAllCallback 0)) (ended 0)
         (installAll fullPage)) !! 0
    = Some 1.
Proof.
  destruct (installBot_reports_once "MC1" 0 0 calm (installAll fullPage)) as [Hends _];
    [by vm_compute|].
  destruct (installBot_reports_once "MC1" 0 0 (ended 0) (installAll fullPage))
    as [_ Hpoll]; [by vm_compute|].
  split.
  - by vm_compute.
  - by destruct (Hpoll 4) as (_ & _ & ->).
Defined.

(** X4 on the full page, from the start of the batch. *)
Lemma installAll_completes_sample :
  ∃ more,
    Forall (draining (λ _, None) 0) more
    ∧ completed (run ([] ++ more) (installAll fullPage)) !! 0 = Some 4
    ∧ count (holds 0) (timers (run ([] ++ more) (installAll fullPage))) = 0.
Proof. exact (installAll_completes fullPage [] (λ _, None) 0%Z (wf_opened _ _ _)). Defined.

(** ** More on start and stop *)

Section StartStopFacts.

Local Arguments updateStatus : simpl never.
Local Arguments invoke : simpl never.

Lemma statusIndicators_updateStatus b status st b' :
  statusIndicators (updateStatus b status st) !! b'
  = if decide (b' = b)
    then (λ _, "status-indicator status-" +:+ status) <$> statusIndicators st !! b'
    else statusIndicators st !! b'.
Proof.
  case_decide as Hb.
  - subst. apply updateStatus_lookup.
  - by apply updateStatus_lookup_ne.
Qed.

Lemma stopBot_tracking b h st b' :
  runningProcesses (stopBot b h st) !! b'
  = if decide (b' = b ∧ raises h (stopCommand b) = None)
    then Some false else runningProcesses st !! b'.
Proof.
  unfold stopBot. destruct (raises h (stopCommand b)) as [m|]; simpl.
  - rewrite decide_False; [done|]. by intros [_ ?].
  - rewrite runningProcesses_updateStatus. simpl.
    destruct (decide (b' = b)) as [->|Hne].
    + rewrite decide_True by done. apply lookup_insert_eq.
    + rewrite decide_False by (by intros [? _]). by apply lookup_insert_ne.
Qed.

Lemma stopBot_indicator b h st b' :
  statusIndicators (stopBot b h st) !! b'
  = if decide (b' = b ∧ raises h (stopCommand b) = None)
    then (λ _, "status-indicator status-stopped") <$> statusIndicators st !! b'
    else statusIndicators st !! b'.
Proof.
  unfold stopBot. destruct (raises h (stopCommand b)) as [m|]; simpl.
  - rewrite decide_False; [done|]. by intros [_ ?].
  - rewrite statusIndicators_updateStatus. simpl.
    destruct (decide (b' = b)) as [->|Hne].
    + by rewrite decide_True.
    + by rewrite decide_False by (by intros [? _]).
Qed.

Lemma stopBots_tracking h names st b :
  runningProcesses (foldl (λ st botName, stopBot botName h st) st names) !! b
  = if decide (b ∈ names ∧ raises h (stopCommand b) = None)
    then Some false else runningProcesses st !! b.
Proof.
  revert st. induction names as [|b0 names IH]; intros st; simpl.
  - done.
  - rewrite IH, stopBot_tracking.
    repeat case_decide; try done; exfalso; set_solver.
Qed.

Lemma stopBots_indicator h names st b :
  statusIndicators (foldl (λ st botName, stopBot botName h st) st names) !! b
  = if decide (b ∈ names ∧ raises h (stopCommand b) = None)
    then (λ _, "status-indicator status-stopped") <$> statusIndicators st !! b
    else statusIndicators st !! b.
Proof.
  revert st. induction names as [|b0 names IH]; intros st; simpl.
  - done.
  - rewrite IH, stopBot_indicator.
    repeat case_decide; try done; try (exfalso; set_solver).
    by destruct (statusIndicators st !! b).
Qed.

(** X5.  stopAllBots stops each of the four bots whose kill command the
    shell takes: such a bot is no longer tracked as running and its
    indicator, if it has a card, shows stopped.  A bot whose kill command
    the shell refuses keeps its tracking and its indicator, and does not
    keep the loop from going on to the bots after it; a name that is not
    one of the four is not touched. *)
Theorem stopAllBots_outcome h st b :
  runningProcesses (stopAllBots h st) !! b
  = (if decide (b ∈ botNames ∧ raises h (stopCommand b) = None)
     then Some false else runningProcesses st !! b)
  ∧ statusIndicators (stopAllBots h st) !! b
    = (if decide (b ∈ botNames ∧ raises h (stopCommand b) = None)
       then (λ _, "status-indicator status-stopped") <$> statusIndicators st !! b
       else statusIndicators st !! b).
Proof.
  unfold stopAllBots. split.
  - by rewrite stopBots_tracking.
  - by rewrite stopBots_indicator.
Qed.

(** X6.  Stop, then start, is a restart whatever was tracked before:
    when the bot's folder exists and the shell takes both commands, the
    kill command and the start command are launched in this order, the
    bot is tracked as running and its indicator shows running.  (The
    stop clears the guard that makes a start of a running bot a no-op.) *)
Theorem stop_then_start_restarts botName h h' st :
  FolderExists (currentDir st +:+ "\" +:+ botName) st = true →
  raises h (stopCommand botName) = None →
  raises h' (startCommand botName (currentDir st +:+ "\" +:+ botName)) = None →
  runningProcesses (startBot botName h' (stopBot botName h st)) !! botName = Some true
  ∧ statusIndicators (startBot botName h' (stopBot botName h st)) !! botName
    = (λ _, "status-indicator status-running") <$> statusIndicators st !! botName
  ∧ launched (startBot botName h' (stopBot botName h st))
    = launched st
      ++ [stopCommand botName;
          startCommand botName (currentDir st +:+ "\" +:+ botName)].
Proof.
  intros Hfolder Hstop Hstart.
  pose proof (stopBot_tracking botName h st botName) as Htracked.
  rewrite decide_True in Htracked by done.
  pose proof (stopBot_indicator botName h st botName) as Hind.
  rewrite decide_True in Hind by done.
  pose proof (launched_stopBot botName h st) as Hlaunched. rewrite Hstop in Hlaunched.
  assert (currentDir (stopBot botName h st) = currentDir st) as Hdir.
  { unfold stopBot. rewrite Hstop. unfold updateStatus. simpl.
    by destruct (statusIndicators st !! botName). }
  assert (folders (stopBot botName h st) = folders st) as Hfolders.
  { unfold stopBot. rewrite Hstop. unfold updateStatus. simpl.
    by destruct (statusIndicators st !! botName). }
  unfold startBot. rewrite Hdir.
  unfold FolderExists in *. rewrite Hfolders, Hfolder. simpl.
  rewrite bool_decide_eq_false_2 by (rewrite Htracked; done).
  rewrite Hstart. simpl.
  rewrite runningProcesses_updateStatus, launched_updateStatus, updateStatus_lookup. simpl.
  rewrite lookup_insert_eq, Hind, Hlaunched, <- app_assoc.
  split; [done|]. split; [|done]. by destruct (statusIndicators st !! botName).
Qed.

End StartStopFacts.

(** X6 on the sample page with MC2 already running: the restart launches
    the kill and then the start. *)
Lemma stop_then_start_sample :
  runningProcesses (startBot "MC2" calm (stopBot "MC2" calm sampleRunning)) !! "MC2"
  = Some true
  ∧ length (launched (startBot "MC2" calm (stopBot "MC2" calm sampleRunning))) = 3.
Proof.
  destruct (stop_then_start_restarts "MC2" calm calm sampleRunning)
    as (Htracked & _ & Hlaunched); [by vm_compute..|].
  split; [done|]. rewrite Hlaunched. by vm_compute.
Defined.

(** ** What the handlers leave alone *)

Section FrameFacts.

Local Arguments updateStatus : simpl never.
Local Arguments invoke : simpl never.

Lemma grows_refl st : grows st st.
Proof. by repeat split. Qed.

Lemma grows_trans st1 st2 st3 : grows st1 st2 → grows st2 st3 → grows st1 st3.
Proof. intros (?&?&?) (?&?&?). repeat split; by etrans. Qed.

Lemma same_disk_refl st : same_disk st st.
Proof. repeat split; done. Qed.

Lemma same_disk_trans st1 st2 st3 : same_disk st1 st2 → same_disk st2 st3 → same_disk st1 st3.
Proof.
  intros (?&?&?&?) (?&?&?&?). repeat split; try congruence.
  all: by eapply grows_trans.
Qed.

Lemma keeps_refl st : keeps st st.
Proof. split; [apply same_disk_refl|done]. Qed.

Lemma keeps_trans st1 st2 st3 : keeps st1 st2 → keeps st2 st3 → keeps st1 st3.
Proof. intros [? ?] [? ?]. split; [by eapply same_disk_trans|congruence]. Qed.

Ltac by_fields :=
  unfold keeps, same_disk, grows; simpl;
  intuition (try done; try (rewrite <- ?app_assoc; by apply prefix_app_r)).

Lemma keeps_logMessage m t st : keeps st (logMessage m t st).
Proof. repeat split; simpl; try done. by apply prefix_app_r. Qed.

Lemma keeps_updateStatus b status st : keeps st (updateStatus b status st).
Proof. unfold updateStatus. destruct (statusIndicators st !! b); by_fields. Qed.

Lemma keeps_launch cmd st : keeps st (launch cmd st).
Proof. repeat split; simpl; try done. by apply prefix_app_r. Qed.

Lemma keeps_alert text st : keeps st (alert text st).
Proof. repeat split; simpl; try done. by apply prefix_app_r. Qed.

Lemma keeps_setTimer job delay period st : keeps st (setTimer job delay period st).
Proof. by_fields. Qed.

Lemma keeps_clearInterval id st : keeps st (clearInterval id st).
Proof. by_fields. Qed.

Lemma keeps_after_serving t st : keeps st (after_serving t st).
Proof. unfold after_serving. destruct (period t); by_fields. Qed.

Lemma keeps_invoke callback st : keeps st (invoke callback st).
Proof.
  unfold invoke, InstallAllCallback_body. destruct callback as [[cell]|]; [|by_fields].
  destruct (completed st !! cell); [|by_fields].
  case_bool_decide; by_fields.
Qed.

Lemma keeps_stagger f unit index names st : keeps st (stagger f unit index names st).
Proof.
  revert index st. induction names as [|b names IH]; intros index st; [by_fields|].
  simpl. eapply keeps_trans; [|apply IH]. by_fields.
Qed.

Ltac keeps_step lem := eapply keeps_trans; [|apply lem].

Lemma keeps_installBot b callback h st : keeps st (installBot b callback h st).
Proof.
  unfold installBot. destruct (negb (FolderExists _ st)).
  { keeps_step keeps_invoke. apply keeps_logMessage. }
  destruct (negb (FileExists _ st)).
  { keeps_step keeps_invoke. apply keeps_logMessage. }
  destruct (raises h _).
  - keeps_step keeps_invoke. keeps_step keeps_updateStatus. keeps_step keeps_logMessage.
    keeps_step keeps_logMessage. apply keeps_updateStatus.
  - keeps_step keeps_setTimer. keeps_step keeps_launch. keeps_step keeps_logMessage.
    apply keeps_updateStatus.
Qed.

Lemma keeps_InstallBotCheck_body id b callback h st :
  keeps st (InstallBotCheck_body id b callback h st).
Proof.
  unfold InstallBotCheck_body. destruct (exited h); [|by_fields].
  keeps_step keeps_invoke.
  case_bool_decide; keeps_step keeps_updateStatus; keeps_step keeps_logMessage;
    apply keeps_clearInterval.
Qed.

Lemma keeps_installAll st : keeps st (installAll st).
Proof.
  unfold installAll. keeps_step keeps_stagger.
  eapply keeps_trans; [|by instantiate (1 := logMessage _ _ _)].
  keeps_step keeps_logMessage. by_fields.
Qed.

Lemma keeps_startAllBots st : keeps st (startAllBots st).
Proof. unfold startAllBots. keeps_step keeps_stagger. apply keeps_logMessage. Qed.

Lemma keeps_InstallAllFinished_body st : keeps st (InstallAllFinished_body st).
Proof.
  unfold InstallAllFinished_body. keeps_step keeps_alert. keeps_step keeps_logMessage.
  by_fields.
Qed.

Lemma same_disk_startBot b h st : same_disk st (startBot b h st).
Proof.
  unfold startBot, updateStatus. destruct (negb _); [by_fields|].
  case_bool_decide; [by_fields|].
  destruct (raises h _); [by_fields|]. simpl.
  destruct (statusIndicators st !! b); by_fields.
Qed.

Lemma same_disk_stopBot b h st : same_disk st (stopBot b h st).
Proof.
  unfold stopBot, updateStatus. destruct (raises h _); [by_fields|]. simpl.
  destruct (statusIndicators st !! b); by_fields.
Qed.

Lemma same_disk_stopAllBots h st : same_disk st (stopAllBots h st).
Proof.
  unfold stopAllBots.
  assert (∀ names s, same_disk s (foldl (λ st botName, stopBot botName h st) s names)) as H.
  { induction names as [|b names IH]; intros s; [by_fields|]. simpl.
    eapply same_disk_trans; [apply (same_disk_stopBot b h)|apply IH]. }
  eapply same_disk_trans; [|apply H]. by_fields.
Qed.

Lemma renderCards_frame members st :
  grows st (renderCards members st).1
  ∧ currentDir (renderCards members st).1 = currentDir st
  ∧ folders (renderCards members st).1 = folders st
  ∧ files (renderCards members st).1 = files st
  ∧ runningProcesses (renderCards members st).1 = runningProcesses st.
Proof.
  revert st. induction members as [|[b account] members IH]; intros st.
  { by_fields. }
  simpl. destruct account;
    try solve [by_fields];
    match goal with
    | |- context [renderCards members ?s] =>
        destruct (IH s) as (Hg & -> & -> & -> & ->); split; [exact Hg|done]
    end.
Qed.

Lemma renderBotConfigs_frame accounts st :
  grows st (renderBotConfigs accounts st).1
  ∧ currentDir (renderBotConfigs accounts st).1 = currentDir st
  ∧ folders (renderBotConfigs accounts st).1 = folders st
  ∧ files (renderBotConfigs accounts st).1 = files st
  ∧ runningProcesses (renderBotConfigs accounts st).1 = runningProcesses st.
Proof.
  unfold renderBotConfigs. destruct accounts as [[]|];
    try solve [by_fields];
    match goal with
    | |- context [renderCards ?m ?s] =>
        destruct (renderCards_frame m s) as (Hg & -> & -> & -> & ->); split; [exact Hg|done]
    end.
Qed.

Lemma grows_logMessage m t st : grows st (logMessage m t st).
Proof. by_fields. Qed.

(** loadConfig keeps folders and tracking, continues the records, and
    writes at most the missing global_config.json. *)
Lemma loadConfig_frame st :
  grows st (loadConfig st)
  ∧ currentDir (loadConfig st) = currentDir st
  ∧ folders (loadConfig st) = folders st
  ∧ runningProcesses (loadConfig st) = runningProcesses st
  ∧ files (loadConfig st)
    = match files st !! (currentDir st +:+ "\global_config.json") with
      | Some _ => files st
      | None => <[currentDir st +:+ "\global_config.json" := Text defaultConfig]> (files st)
      end.
Proof.
  unfold loadConfig, FileExists. simpl.
  destruct (files st !! (currentDir st +:+ "\global_config.json")) as [c|] eqn:Hfile.
  - rewrite bool_decide_eq_true_2 by eauto. simpl.
    destruct (_ ≫= _) as [accounts|m].
    + destruct (renderBotConfigs accounts
                  (logMessage ("Loading configuration from: "
                               +:+ currentDir st +:+ "\global_config.json") "info" st))
        as [st' [m|]] eqn:E;
        pose proof (renderBotConfigs_frame accounts
                      (logMessage ("Loading configuration from: "
                                   +:+ currentDir st +:+ "\global_config.json") "info" st))
          as (Hg & Hd & Hfo & Hfi & Hrp);
        rewrite E in Hg, Hd, Hfo, Hfi, Hrp; simpl in *;
        (split; [|done]);
        (eapply grows_trans; [|apply grows_logMessage]);
        (eapply grows_trans; [|exact Hg]); apply grows_logMessage.
    + split; [|done].
      eapply grows_trans; apply grows_logMessage.
  - rewrite bool_decide_eq_false_2 by (intros [? ?]; done). simpl.
    split; [|done].
    repeat split; simpl; try done.
    rewrite <- !app_assoc. by apply prefix_app_r.
Qed.

Lemma keeps_runTask id job h st :
  match job with StartAllTimeout _ => True | _ => keeps st (runTask id job h st) end.
Proof.
  destruct job; simpl; [apply keeps_installBot|apply keeps_InstallAllFinished_body
                        |apply keeps_InstallBotCheck_body|done].
Qed.

(** X7.  Only start and stop change which bots are tracked as running:
    every other event of the page (the load of the configuration, an
    install and its polls, installAll and its timeouts and announcement,
    the scheduling of startAllBots, time passing, the disk changing)
    leaves the tracking map as it is.  In particular an install neither
    marks a bot as busy nor releases a running one. *)
Theorem only_start_and_stop_change_tracking e st :
  starts_or_stops e st = false →
  runningProcesses (step e st) = runningProcesses st.
Proof.
  destruct e as [ms|id h|c h|fo fi]; cbn [step handle starts_or_stops]; try done.
  - unfold fire. destruct (ready id st) as [t|]; [|done].
    intros Hjob. pose proof (keeps_runTask id (job t) h (after_serving t st)) as Hrun.
    destruct (job t) as [b cell|cell|b cb|b]; try done;
      destruct Hrun as [_ ->]; by destruct (keeps_after_serving t st) as [_ ->].
  - destruct c as [| |b|b|b| |]; cbn [handle]; intros Hc; try discriminate Hc.
    + by destruct (loadConfig_frame st) as (_ & _ & _ & -> & _).
    + by destruct (keeps_installAll st) as [_ ->].
    + by destruct (keeps_installBot b None h st) as [_ ->].
    + by destruct (keeps_startAllBots st) as [_ ->].
Qed.

Lemma grows_step e st : grows st (step e st).
Proof.
  destruct e as [ms|id h|c h|fo fi]; cbn [step handle]; try solve [by_fields].
  - unfold fire. destruct (ready id st) as [t|]; [|apply grows_refl].
    eapply grows_trans; [apply keeps_after_serving|].
    destruct (job t); cbn [runTask].
    + apply keeps_installBot.
    + apply keeps_InstallAllFinished_body.
    + apply keeps_InstallBotCheck_body.
    + apply same_disk_startBot.
  - destruct c; cbn [handle].
    + apply loadConfig_frame.
    + apply keeps_installAll.
    + apply keeps_installBot.
    + apply same_disk_startBot.
    + apply same_disk_stopBot.
    + apply keeps_startAllBots.
    + apply same_disk_stopAllBots.
Qed.

(** X8.  The records of the page only grow: in every run the log, the
    list of command lines handed to the shell and the list of alerts at
    the end continue those at the start; no handler removes or rewrites
    an entry. *)
Theorem records_only_grow evs st :
  logContainer st `prefix_of` logContainer (run evs st)
  ∧ launched st `prefix_of` launched (run evs st)
  ∧ alerts st `prefix_of` alerts (run evs st).
Proof.
  change (grows st (run evs st)).
  revert st. induction evs as [|e evs IH]; intros st; [apply grows_refl|].
  simpl. eapply grows_trans; [apply grows_step|apply IH].
Qed.

Lemma disk_step e st :
  of_the_page e →
  currentDir (step e st) = currentDir st
  ∧ folders (step e st) = folders st
  ∧ files (step e st)
    = match e, files st !! (currentDir st +:+ "\global_config.json") with
      | Click LoadConfig _, None =>
          <[currentDir st +:+ "\global_config.json" := Text defaultConfig]> (files st)
      | _, _ => files st
      end.
Proof.
  destruct e as [ms|id h|c h|fo fi]; cbn [step handle of_the_page]; try done.
  - intros _. unfold fire. destruct (ready id st) as [t|]; [|done].
    destruct (keeps_after_serving t st) as [(Hd & Hfo & Hfi & _) _].
    rewrite <- Hd, <- Hfo, <- Hfi.
    destruct (job t) as [b cell|cell|b cb|b]; cbn [runTask].
    + by destruct (keeps_installBot b (Some (InstallAllCallback cell)) h
                     (after_serving t st)) as [(-> & -> & -> & _) _].
    + by destruct (keeps_InstallAllFinished_body (after_serving t st))
        as [(-> & -> & -> & _) _].
    + by destruct (keeps_InstallBotCheck_body id b cb h (after_serving t st))
        as [(-> & -> & -> & _) _].
    + by destruct (same_disk_startBot b h (after_serving t st)) as (-> & -> & -> & _).
  - intros _. destruct c as [| |b|b|b| |]; cbn [handle].
    + destruct (loadConfig_frame st) as (_ & -> & -> & _ & ->).
      by destruct (files st !! _).
    + by destruct (keeps_installAll st) as [(-> & -> & -> & _) _].
    + by destruct (keeps_installBot b None h st) as [(-> & -> & -> & _) _].
    + by destruct (same_disk_startBot b h st) as (-> & -> & -> & _).
    + by destruct (same_disk_stopBot b h st) as (-> & -> & -> & _).
    + by destruct (keeps_startAllBots st) as [(-> & -> & -> & _) _].
    + by destruct (same_disk_stopAllBots h st) as (-> & -> & -> & _).
Qed.

(** X9.  Loading, installing, starting and stopping never change or
    delete a file and never touch the folders: over any run of events of
    the page, the folders are those of the start, every file that was
    there keeps its content, and the only file that can appear is
    global_config.json, holding the default document. *)
Theorem supervisor_writes_only_the_default evs st :
  Forall of_the_page evs →
  currentDir (run evs st) = currentDir st
  ∧ folders (run evs st) = folders st
  ∧ ∀ path,
      files (run evs st) !! path = files st !! path
      ∨ (files st !! path = None
         ∧ path = currentDir st +:+ "\global_config.json"
         ∧ files (run evs st) !! path = Some (Text defaultConfig)).
Proof.
  revert st. induction evs as [|e evs IH]; intros st Hevs.
  { split; [done|]. split; [done|]. by left. }
  apply Forall_cons in Hevs as [He Hevs].
  destruct (disk_step e st He) as (Hd & Hfo & Hfi).
  destruct (IH (step e st) Hevs) as (Hd' & Hfo' & Hfi').
  change (run (e :: evs) st) with (run evs (step e st)).
  rewrite Hd', Hfo', Hd, Hfo. split; [done|]. split; [done|].
  intros path. rewrite Hd in Hfi'.
  destruct (Hfi' path) as [Heq|(Hnone & -> & Hsome)].
  - rewrite Heq, Hfi.
    destruct e as [| |[]|]; try (by left).
    destruct (files st !! (currentDir st +:+ "\global_config.json")) eqn:Hcfg; [by left|].
    destruct (decide (path = currentDir st +:+ "\global_config.json")) as [->|Hne].
    + right. by rewrite lookup_insert_eq.
    + left. by rewrite lookup_insert_ne.
  - rewrite Hsome. rewrite Hfi in Hnone.
    destruct e as [| |[]|]; try (right; done).
    destruct (files st !! (currentDir st +:+ "\global_config.json")) eqn:Hcfg;
      [congruence|].
    by rewrite lookup_insert_eq in Hnone.
Qed.

End FrameFacts.

(** X7 on the full page: the whole sample batch of installs, polls and
    announcement tracks no bot. *)
Lemma installAll_tracks_nothing_sample :
  runningProcesses (step (Click InstallAll calm) sampleRunning)
  = runningProcesses sampleRunning.
Proof.
  apply (only_start_and_stop_change_tracking (Click InstallAll calm) sampleRunning).
  done.
Defined.

(** X9 on the sample page: load, install everything, start and stop
    MC2; MC2's settings.json is as before and the default configuration
    has appeared. *)
Lemma supervisor_writes_only_the_default_sample :
  folders
    (run [Click LoadConfig calm; Click InstallAll calm; Elapse 3000; Fire 1 calm;
          Click (StartBot "MC2") calm; Click (StopBot "MC2") calm] samplePage)
  = folders samplePage.
Proof.
  apply (supervisor_writes_only_the_default
           [Click LoadConfig calm; Click InstallAll calm; Elapse 3000; Fire 1 calm;
            Click (StartBot "MC2") calm; Click (StopBot "MC2") calm] samplePage).
  repeat constructor.
Defined.

(** ** More on loading the configuration *)

Section LoadFacts.

Lemma renderCards_cards members st :
  Forall (λ kv, kv.2 ≠ JNull) members →
  (renderCards members st).2 = None
  ∧ ∀ b, statusIndicators (renderCards members st).1 !! b
         = if decide (b ∈ members.*1) then Some "status-indicator status-stopped"
           else statusIndicators st !! b.
Proof.
  intros Hok. revert st. induction Hok as [|[b0 account] members Hacc _ IH]; intros st.
  { done. }
  assert (renderCards ((b0, account) :: members) st
          = renderCards members
              (set_statusIndicators
                 (<[b0 := "status-indicator status-stopped"]> (statusIndicators st)) st))
    as -> by (by destruct account).
  destruct (IH (set_statusIndicators
                  (<[b0 := "status-indicator status-stopped"]> (statusIndicators st)) st))
    as [-> Hcards].
  split; [done|]. intros b. rewrite Hcards, fmap_cons.
  cbn [statusIndicators set_statusIndicators fst].
  destruct (decide (b = b0)) as [->|Hne].
  - rewrite lookup_insert_eq. repeat case_decide; try done; exfalso; set_solver.
  - rewrite lookup_insert_ne by done.
    repeat case_decide; try done; exfalso; set_solver.
Qed.

(** The first null account ends the rendering: the cards made before it
    stay, and the error of reading its type comes back. *)
Lemma renderCards_null before b after st :
  Forall (λ kv, kv.2 ≠ JNull) before →
  (renderCards (before ++ (b, JNull) :: after) st).2 = Some (cannot_get "type")
  ∧ ∀ b', statusIndicators (renderCards (before ++ (b, JNull) :: after) st).1 !! b'
          = if decide (b' ∈ before.*1) then Some "status-indicator status-stopped"
            else statusIndicators st !! b'.
Proof.
  intros Hok. revert st. induction Hok as [|[b0 account] before Hacc _ IH]; intros st.
  { done. }
  assert (renderCards (((b0, account) :: before) ++ (b, JNull) :: after) st
          = renderCards (before ++ (b, JNull) :: after)
              (set_statusIndicators
                 (<[b0 := "status-indicator status-stopped"]> (statusIndicators st)) st))
    as -> by (by destruct account).
  destruct (IH (set_statusIndicators
                  (<[b0 := "status-indicator status-stopped"]> (statusIndicators st)) st))
    as [-> Hcards].
  split; [done|]. intros b'. rewrite Hcards, fmap_cons.
  cbn [statusIndicators set_statusIndicators fst].
  destruct (decide (b' = b0)) as [->|Hne].
  - rewrite lookup_insert_eq. repeat case_decide; try done; exfalso; set_solver.
  - rewrite lookup_insert_ne by done.
    repeat case_decide; try done; exfalso; set_solver.
Qed.

(** X10.  loadConfig on a global_config.json whose accounts are all
    objects (none null) rebuilds the cards from the file alone: after it
    the page has exactly one status indicator per account name, each
    showing stopped, whatever the indicators showed before and whether or
    not the bot is tracked as running; the tracking map and the files are
    as before and the log ends with the success entry. *)
Theorem loadConfig_renders_accounts st members accounts :
  files st !! (currentDir st +:+ "\global_config.json") = Some (Text (JObj members)) →
  member "accounts" members = Some (JObj accounts) →
  Forall (λ kv, kv.2 ≠ JNull) accounts →
  (∀ b, statusIndicators (loadConfig st) !! b
        = if decide (b ∈ accounts.*1) then Some "status-indicator status-stopped" else None)
  ∧ runningProcesses (loadConfig st) = runningProcesses st
  ∧ files (loadConfig st) = files st
  ∧ last (logContainer (loadConfig st))
    = Some (entry "success" "Configuration loaded successfully!").
Proof.
  intros Hfile Haccounts Hok.
  destruct (loadConfig_frame st) as (_ & _ & _ & Hrp & Hfiles).
  rewrite Hfile in Hfiles. rewrite Hrp, Hfiles.
  unfold loadConfig, FileExists, readDocument. simpl.
  rewrite Hfile, bool_decide_eq_true_2 by eauto. simpl. rewrite Haccounts.
  unfold renderBotConfigs.
  destruct (renderCards_cards accounts
              (set_statusIndicators ∅
                 (logMessage ("Loading configuration from: "
                              +:+ currentDir st +:+ "\global_config.json") "info" st))
              Hok) as [Hnone Hcards].
  destruct (renderCards accounts _) as [st' o] eqn:E. simpl in Hnone, Hcards. subst o.
  simpl. split; [|by rewrite last_snoc].
  intros b. rewrite Hcards. by case_decide.
Qed.

(** X11.  A null account aborts the rendering midway and leaves the
    page half built: the cards of the accounts before it (all objects)
    are on the page, showing stopped, every other indicator is gone, and
    the log ends with the error; the files are not touched. *)
Theorem loadConfig_null_account st members before b after :
  files st !! (currentDir st +:+ "\global_config.json") = Some (Text (JObj members)) →
  member "accounts" members = Some (JObj (before ++ (b, JNull) :: after)) →
  Forall (λ kv, kv.2 ≠ JNull) before →
  (∀ b', statusIndicators (loadConfig st) !! b'
         = if decide (b' ∈ before.*1) then Some "status-indicator status-stopped" else None)
  ∧ files (loadConfig st) = files st
  ∧ last (logContainer (loadConfig st))
    = Some (entry "error" ("Error loading config: " +:+ cannot_get "type")).
Proof.
  intros Hfile Haccounts Hok.
  destruct (loadConfig_frame st) as (_ & _ & _ & _ & Hfiles).
  rewrite Hfile in Hfiles. rewrite Hfiles.
  unfold loadConfig, FileExists, readDocument. simpl.
  rewrite Hfile, bool_decide_eq_true_2 by eauto. simpl. rewrite Haccounts.
  unfold renderBotConfigs.
  destruct (renderCards_null before b after
              (set_statusIndicators ∅
                 (logMessage ("Loading configuration from: "
                              +:+ currentDir st +:+ "\global_config.json") "info" st))
              Hok) as [Hsome Hcards].
  destruct (renderCards _ _) as [st' o] eqn:E. simpl in Hsome, Hcards. subst o.
  simpl. split; [|by rewrite last_snoc].
  intros b'. rewrite Hcards. by case_decide.
Qed.

End LoadFacts.

(** X10 on the sample page with MC2 running: a reload shows MC2 stopped
    while it stays tracked as running. *)
Lemma loadConfig_renders_accounts_sample :
  statusIndicators (loadConfig sampleRunning) !! "MC2"
  = Some "status-indicator status-stopped"
  ∧ runningProcesses (loadConfig sampleRunning) !! "MC2" = Some true.
Proof.
  destruct (loadConfig_renders_accounts sampleRunning
              [("accounts", defaultAccounts); ("server", serverDocument defaultServer)]
              [("MC1", account "Bot1" EmptyString "offline");
               ("MC2", account "Bot2" EmptyString "offline");
               ("MC3", account "Bot3" EmptyString "offline");
               ("MC4", account "Bot4" EmptyString "offline")])
    as (Hcards & -> & _); [by vm_compute|done|by repeat constructor|].
  split; [|by vm_compute].
  rewrite Hcards. apply decide_True. set_solver.
Defined.

(** X11 on a page whose second account is null: MC1 has its card, MC3
    has none. *)
Lemma loadConfig_null_account_sample :
  statusIndicators (loadConfig nullAccountPage) !! "MC1"
  = Some "status-indicator status-stopped"
  ∧ statusIndicators (loadConfig nullAccountPage) !! "MC3" = None.
Proof.
  destruct (loadConfig_null_account nullAccountPage
              [("accounts",
                JObj [("MC1", account "Bot1" EmptyString "offline");
                      ("MC2", JNull);
                      ("MC3", account "Bot3" EmptyString "offline")])]
              [("MC1", account "Bot1" EmptyString "offline")] "MC2"
              [("MC3", account "Bot3" EmptyString "offline")])
    as (Hcards & _); [by vm_compute|done|by repeat constructor|].
  rewrite !Hcards. split; [apply decide_True|apply decide_False]; set_solver.
Defined.

(** ** More on the propagation of the server settings *)

Section AssignFacts.

Lemma put_member_put_member k x y members :
  put_member k x (put_member k y members) = put_member k x members.
Proof.
  induction members as [|[k' v'] rest IH]; simpl.
  - by rewrite bool_decide_eq_true_2.
  - case_bool_decide as Hk; simpl.
    + by rewrite bool_decide_eq_true_2.
    + by rewrite bool_decide_eq_false_2, IH.
Qed.

Lemma put_member_id k x members :
  member k members = Some x → put_member k x members = members.
Proof.
  induction members as [|[k' v'] rest IH]; simpl; [done|].
  case_bool_decide as Hk.
  - by intros [= ->]; subst.
  - intros H. by rewrite IH.
Qed.

Lemma put_member_fixed k x members :
  put_member k x members = members → member k members = Some x.
Proof.
  induction members as [|[k' v'] rest IH]; simpl; [done|].
  case_bool_decide as Hk.
  - by intros [= _ ->].
  - intros [= H]. by apply IH.
Qed.

(** An assignment below an object goes through, and the object gains
    or updates the member. *)
Lemma assign_object path k x doc members :
  lookup_path path doc = Some (JObj members) →
  ∃ doc', assign path k x doc = Ok doc'
          ∧ lookup_path path doc' = Some (JObj (put_member k x members)).
Proof.
  revert doc. induction path as [|p path IH]; intros doc Hlook.
  - simpl in *. simplify_eq. by eexists.
  - simpl in *. destruct doc; simplify_eq/=.
    destruct (member p members0) as [child|] eqn:Hchild; simplify_eq/=.
    destruct (IH child Hlook) as (child' & -> & Hlook').
    eexists. split; [done|]. simpl. by rewrite member_put_member_eq.
Qed.

(** An assignment made once more changes nothing. *)
Lemma assign_again path k x doc doc' :
  assign path k x doc = Ok doc' → assign path k x doc' = Ok doc'.
Proof.
  revert doc doc'. induction path as [|p path IH]; intros doc doc' Hassign.
  - simpl in *. destruct doc; simplify_eq/=; try done.
    by rewrite put_member_put_member.
  - simpl in *. destruct doc; simplify_eq/=.
    destruct (member p members) as [child|] eqn:Hchild; simplify_eq/=.
    destruct (assign path k x child) as [child'|] eqn:Hchild'; simplify_eq/=.
    rewrite member_put_member_eq. simpl. rewrite (IH _ _ Hchild'). simpl.
    by rewrite put_member_put_member.
Qed.

(** An assignment that changes nothing still changes nothing after an
    assignment to a place apart from it. *)
Lemma assign_fixed_frame path k x path2 k2 x2 doc doc2 :
  assign path k x doc = Ok doc →
  assign path2 k2 x2 doc = Ok doc2 →
  apart (path ++ [k]) (path2 ++ [k2]) →
  assign path k x doc2 = Ok doc2.
Proof.
  revert path2 doc doc2.
  induction path as [|p path IH]; intros path2 doc doc2 Hfix Hassign Hapart.
  - destruct doc as [|b|n|s|items|members]; try done.
    1-4: by destruct path2; simplify_eq/=.
    simpl in Hfix. injection Hfix as Hput. apply put_member_fixed in Hput.
    destruct path2 as [|p2 path2]; simpl in Hassign.
    + simplify_eq/=. do 2 f_equal. apply put_member_id.
      rewrite member_put_member_ne; [done|].
      intros ->. destruct Hapart as [H _]. by apply H.
    + destruct (member p2 members) as [c2|] eqn:Hc2; simplify_eq/=.
      destruct (assign path2 k2 x2 c2) as [c2'|] eqn:Hc2'; simplify_eq/=.
      do 2 f_equal. apply put_member_id.
      rewrite member_put_member_ne; [done|].
      intros ->. destruct Hapart as [H _]. apply H. apply prefix_cons, prefix_nil.
  - destruct doc as [|b|n|s|items|members]; try done.
    simpl in Hfix.
    destruct (member p members) as [child|] eqn:Hchild; [|done].
    destruct (assign path k x child) as [child'|] eqn:Hchild'; [|done].
    simpl in Hfix. injection Hfix as Hput. apply put_member_fixed in Hput.
    assert (child' = child) as -> by congruence.
    destruct path2 as [|p2 path2]; simpl in Hassign.
    + simplify_eq/=.
      assert (k2 ≠ p) as Hne.
      { intros ->. destruct Hapart as [_ H]. apply H. apply prefix_cons, prefix_nil. }
      rewrite member_put_member_ne, Hchild by done. simpl. rewrite Hchild'. simpl.
      do 2 f_equal. apply put_member_id. by rewrite member_put_member_ne.
    + destruct (member p2 members) as [c2|] eqn:Hc2; simplify_eq/=.
      destruct (assign path2 k2 x2 c2) as [c2'|] eqn:Hc2'; simplify_eq/=.
      destruct (decide (p2 = p)) as [->|Hne].
      * assert (c2 = child) as -> by congruence.
        rewrite member_put_member_eq. simpl.
        rewrite (IH path2 child c2' Hchild' Hc2'); [|by eapply apart_cons_cons].
        simpl. by rewrite put_member_put_member.
      * rewrite member_put_member_ne, Hchild by done. simpl. rewrite Hchild'. simpl.
        do 2 f_equal. apply put_member_id. by rewrite member_put_member_ne.
Qed.

End AssignFacts.

Section PropagationRoundTrips.

Local Ltac far :=
  split; intros [? ?]; simplify_eq/=.

Lemma res_bind_step {A B : Type} (r : res A) (k : A → res B) (a : A) :
  r = Ok a → r ≫= k = k a.
Proof. by intros ->. Qed.

(** The five assignments go through when [server] and
    [utils['chat-messages']] are objects, and the new values are then
    read at the five places. *)
Lemma applyServerConfig_reads serverConfig settings server chat :
  lookup_path ["server"] settings = Some (JObj server) →
  lookup_path ["utils"; "chat-messages"] settings = Some (JObj chat) →
  ∃ settings',
    applyServerConfig serverConfig settings = Ok settings'
    ∧ lookup_path ["server"; "ip"] settings' = Some (JStr (ip serverConfig))
    ∧ lookup_path ["server"; "version"] settings' = Some (JStr (version serverConfig))
    ∧ lookup_path ["utils"; "chat-messages"; "messages"] settings'
      = Some (JArr (JStr <$> chatMessages serverConfig))
    ∧ lookup_path ["utils"; "chat-messages"; "repeat"] settings'
      = Some (JBool (repeat serverConfig))
    ∧ lookup_path ["utils"; "chat-messages"; "repeat-delay"] settings'
      = Some (number (repeatDelay serverConfig)).
Proof.
  intros Hserver Hchat. unfold applyServerConfig.
  destruct (assign_object ["server"] "ip" (JStr (ip serverConfig)) settings server Hserver)
    as (s1 & H1 & Hserver1).
  assert (lookup_path ["utils"; "chat-messages"] s1 = Some (JObj chat)) as Hchat1.
  { rewrite (lookup_path_assign _ _ _ _ _ _ H1); [done|far]. }
  destruct (assign_object ["server"] "version" (JStr (version serverConfig)) s1 _ Hserver1)
    as (s2 & H2 & Hserver2).
  assert (lookup_path ["utils"; "chat-messages"] s2 = Some (JObj chat)) as Hchat2.
  { rewrite (lookup_path_assign _ _ _ _ _ _ H2); [done|far]. }
  destruct (assign_object ["utils"; "chat-messages"] "messages"
              (JArr (JStr <$> chatMessages serverConfig)) s2 _ Hchat2)
    as (s3 & H3 & Hchat3).
  destruct (assign_object ["utils"; "chat-messages"] "repeat"
              (JBool (repeat serverConfig)) s3 _ Hchat3)
    as (s4 & H4 & Hchat4).
  destruct (assign_object ["utils"; "chat-messages"] "repeat-delay"
              (number (repeatDelay serverConfig)) s4 _ Hchat4)
    as (s5 & H5 & Hchat5).
  exists s5.
  rewrite (res_bind_step _ _ _ H1). cbv beta.
  rewrite (res_bind_step _ _ _ H2). cbv beta.
  rewrite (res_bind_step _ _ _ H3). cbv beta.
  rewrite (res_bind_step _ _ _ H4). cbv beta.
  split; [done|].
  split.
  { rewrite (lookup_path_assign _ _ _ _ _ _ H5) by far.
    rewrite (lookup_path_assign _ _ _ _ _ _ H4) by far.
    rewrite (lookup_path_assign _ _ _ _ _ _ H3) by far.
    rewrite (lookup_path_assign _ _ _ _ _ _ H2) by far.
    by apply (lookup_path_assigned _ _ _ _ _ _ H1 Hserver). }
  split.
  { rewrite (lookup_path_assign _ _ _ _ _ _ H5) by far.
    rewrite (lookup_path_assign _ _ _ _ _ _ H4) by far.
    rewrite (lookup_path_assign _ _ _ _ _ _ H3) by far.
    by apply (lookup_path_assigned _ _ _ _ _ _ H2 Hserver1). }
  split.
  { rewrite (lookup_path_assign _ _ _ _ _ _ H5) by far.
    rewrite (lookup_path_assign _ _ _ _ _ _ H4) by far.
    by apply (lookup_path_assigned _ _ _ _ _ _ H3 Hchat2). }
  split.
  { rewrite (lookup_path_assign _ _ _ _ _ _ H5) by far.
    by apply (lookup_path_assigned _ _ _ _ _ _ H4 Hchat3). }
  by apply (lookup_path_assigned _ _ _ _ _ _ H5 Hchat4).
Qed.

(** The five assignments made once more change nothing. *)
Lemma applyServerConfig_again serverConfig settings settings' :
  applyServerConfig serverConfig settings = Ok settings' →
  applyServerConfig serverConfig settings' = Ok settings'.
Proof.
  unfold applyServerConfig. intros Happly.
  apply res_bind_Ok in Happly as (s1 & H1 & Happly).
  apply res_bind_Ok in Happly as (s2 & H2 & Happly).
  apply res_bind_Ok in Happly as (s3 & H3 & Happly).
  apply res_bind_Ok in Happly as (s4 & H4 & H5).
  pose proof (assign_again _ _ _ _ _ H1) as F1.
  pose proof (assign_again _ _ _ _ _ H2) as F2.
  pose proof (assign_again _ _ _ _ _ H3) as F3.
  pose proof (assign_again _ _ _ _ _ H4) as F4.
  pose proof (assign_again _ _ _ _ _ H5) as F5.
  pose proof (assign_fixed_frame _ _ _ _ _ _ _ _ F1 H2) as F1'.
  pose proof (assign_fixed_frame _ _ _ _ _ _ _ _ (F1' ltac:(far)) H3) as F1''.
  pose proof (assign_fixed_frame _ _ _ _ _ _ _ _ (F1'' ltac:(far)) H4) as F1'''.
  pose proof (assign_fixed_frame _ _ _ _ _ _ _ _ (F1''' ltac:(far)) H5) as G1.
  pose proof (assign_fixed_frame _ _ _ _ _ _ _ _ F2 H3) as F2'.
  pose proof (assign_fixed_frame _ _ _ _ _ _ _ _ (F2' ltac:(far)) H4) as F2''.
  pose proof (assign_fixed_frame _ _ _ _ _ _ _ _ (F2'' ltac:(far)) H5) as G2.
  pose proof (assign_fixed_frame _ _ _ _ _ _ _ _ F3 H4) as F3'.
  pose proof (assign_fixed_frame _ _ _ _ _ _ _ _ (F3' ltac:(far)) H5) as G3.
  pose proof (assign_fixed_frame _ _ _ _ _ _ _ _ F4 H5) as G4.
  rewrite (res_bind_step _ _ _ (G1 ltac:(far))). cbv beta.
  rewrite (res_bind_step _ _ _ (G2 ltac:(far))). cbv beta.
  rewrite (res_bind_step _ _ _ (G3 ltac:(far))). cbv beta.
  rewrite (res_bind_step _ _ _ (G4 ltac:(far))). cbv beta.
  done.
Qed.

Lemma propagated_again serverConfig c :
  propagated serverConfig (propagated serverConfig c) = propagated serverConfig c.
Proof.
  destruct c as [[settings|m]|]; try done. simpl.
  destruct (applyServerConfig serverConfig settings) as [settings'|m] eqn:Happly; simpl.
  - by rewrite (applyServerConfig_again _ _ _ Happly).
  - by rewrite Happly.
Qed.

Lemma settingsPath_updateBotSettings serverConfig b st :
  settingsPath b (updateBotSettings serverConfig st) = settingsPath b st.
Proof. unfold settingsPath, updateBotSettings. by rewrite over_currentDir. Qed.

Lemma bot_settingsPath b st :
  b ∈ botNames → settingsPath b st ∈ (λ b0, settingsPath b0 st) <$> botNames.
Proof. intros Hb. apply list_elem_of_fmap. by exists b. Qed.

(** X12.  When the settings.json of a bot holds a document whose
    [server] and [utils['chat-messages']] are objects, updateBotSettings
    rewrites the file, and the document it leaves reads the form's values
    at the five places: server.ip, server.version, and messages, repeat
    and repeat-delay of utils['chat-messages'] (a repeat delay that is
    not a number is written as null); the log holds the success entry
    of the bot. *)
Theorem updateBotSettings_propagates serverConfig st b settings server chat :
  b ∈ botNames →
  files st !! settingsPath b st = Some (Text settings) →
  lookup_path ["server"] settings = Some (JObj server) →
  lookup_path ["utils"; "chat-messages"] settings = Some (JObj chat) →
  ∃ settings',
    files (updateBotSettings serverConfig st) !! settingsPath b st = Some (Text settings')
    ∧ lookup_path ["server"; "ip"] settings' = Some (JStr (ip serverConfig))
    ∧ lookup_path ["server"; "version"] settings' = Some (JStr (version serverConfig))
    ∧ lookup_path ["utils"; "chat-messages"; "messages"] settings'
      = Some (JArr (JStr <$> chatMessages serverConfig))
    ∧ lookup_path ["utils"; "chat-messages"; "repeat"] settings'
      = Some (JBool (repeat serverConfig))
    ∧ lookup_path ["utils"; "chat-messages"; "repeat-delay"] settings'
      = Some (number (repeatDelay serverConfig))
    ∧ entry "success" (b +:+ ": Settings updated")
      ∈ logContainer (updateBotSettings serverConfig st).
Proof.
  intros Hb Hfile Hserver Hchat.
  destruct (applyServerConfig_reads serverConfig settings server chat Hserver Hchat)
    as (settings' & Happly & Hreads).
  exists settings'. unfold updateBotSettings.
  rewrite over_files by apply NoDup_botNames.
  rewrite decide_True by by apply bot_settingsPath.
  unfold propagated. rewrite Hfile, Happly.
  split; [done|]. repeat (split; [apply Hreads|]).
  rewrite over_logContainer by apply NoDup_botNames.
  apply elem_of_app. right. apply list_elem_of_join.
  exists (round_entries serverConfig b st). split.
  - unfold round_entries. rewrite Hfile, Happly. apply list_elem_of_here.
  - apply list_elem_of_fmap. by exists b.
Qed.

(** X13.  The rewrite of a settings file is all or nothing: when one of
    the five assignments raises (a document without [server], or with
    [server] but without [utils] or [utils['chat-messages']]), the file
    keeps its old document, including the places assigned in memory
    before the raise; the error is logged under the bot's name, and
    the bot's round of the loop writes nothing at all. *)
Theorem updateBotSettings_all_or_nothing serverConfig st b settings message :
  b ∈ botNames →
  files st !! settingsPath b st = Some (Text settings) →
  applyServerConfig serverConfig settings = Throw message →
  files (updateBotSettings serverConfig st) !! settingsPath b st = Some (Text settings)
  ∧ entry "error" (b +:+ ": Error updating settings - " +:+ message)
    ∈ logContainer (updateBotSettings serverConfig st)
  ∧ files (updateBotSettings_round serverConfig b st) = files st.
Proof.
  intros Hb Hfile Happly. unfold updateBotSettings.
  rewrite over_files by apply NoDup_botNames.
  rewrite decide_True by by apply bot_settingsPath.
  unfold propagated. rewrite Hfile, Happly. split; [done|]. split.
  - rewrite over_logContainer by apply NoDup_botNames.
    apply elem_of_app. right. apply list_elem_of_join.
    exists (round_entries serverConfig b st). split.
    + unfold round_entries. rewrite Hfile, Happly. apply list_elem_of_here.
    + apply list_elem_of_fmap. by exists b.
  - apply map_eq. intros path. rewrite round_files.
    case_decide as Hpath; [|done]. subst path.
    unfold propagated. by rewrite Hfile, Happly.
Qed.

(** X14.  Propagating the same server settings a second time changes
    no file: every settings file already holds what the second pass
    would write (or was left alone both times), and the second pass logs
    again exactly the entries of the first. *)
Theorem updateBotSettings_twice serverConfig st :
  files (updateBotSettings serverConfig (updateBotSettings serverConfig st))
  = files (updateBotSettings serverConfig st)
  ∧ ∃ entries,
      logContainer (updateBotSettings serverConfig st) = logContainer st ++ entries
      ∧ logContainer (updateBotSettings serverConfig (updateBotSettings serverConfig st))
        = logContainer st ++ entries ++ entries.
Proof.
  assert (∀ path,
            files (updateBotSettings serverConfig (updateBotSettings serverConfig st)) !! path
            = files (updateBotSettings serverConfig st) !! path) as Hfiles.
  { intros path. unfold updateBotSettings at 1.
    rewrite over_files by apply NoDup_botNames.
    assert ((λ b0, settingsPath b0 (updateBotSettings serverConfig st)) <$> botNames
            = (λ b0, settingsPath b0 st) <$> botNames) as ->.
    { apply list_fmap_ext. intros ?? _. apply settingsPath_updateBotSettings. }
    unfold updateBotSettings. rewrite over_files by apply NoDup_botNames.
    case_decide; [apply propagated_again|done]. }
  split; [by apply map_eq|].
  exists (mjoin ((λ b, round_entries serverConfig b st) <$> botNames)).
  split; [apply over_logContainer, NoDup_botNames|].
  unfold updateBotSettings at 1. rewrite over_logContainer by apply NoDup_botNames.
  fold (updateBotSettings serverConfig st).
  unfold updateBotSettings at 1. rewrite over_logContainer by apply NoDup_botNames.
  fold (updateBotSettings serverConfig st).
  rewrite <- app_assoc. do 3 f_equal.
  apply list_fmap_ext. intros _ b Hb%list_elem_of_lookup_2.
  unfold round_entries. rewrite settingsPath_updateBotSettings.
  unfold updateBotSettings. rewrite over_files by apply NoDup_botNames.
  rewrite decide_True by by apply bot_settingsPath.
  destruct (files st !! settingsPath b st) as [[settings|m]|]; try done. simpl.
  destruct (applyServerConfig serverConfig settings) as [settings'|m] eqn:Happly.
  - by rewrite (applyServerConfig_again _ _ _ Happly).
  - by rewrite Happly.
Qed.

End PropagationRoundTrips.

(** X12 at the sample page and MC2: the new address and repeat delay
    are read back from its settings.json. *)
Lemma updateBotSettings_propagates_sample :
  ∃ settings',
    files (updateBotSettings defaultServer samplePage) !! "C:\bots\MC2\settings.json"
    = Some (Text settings')
    ∧ lookup_path ["server"; "ip"] settings' = Some (JStr "play.pika-network.net")
    ∧ lookup_path ["utils"; "chat-messages"; "repeat-delay"] settings' = Some (JNum 6).
Proof.
  destruct (updateBotSettings_propagates defaultServer samplePage "MC2" sampleSettings
              [("ip", JStr "localhost"); ("version", JStr "1.8"); ("port", JNum 25565)]
              [("enabled", JBool true); ("messages", JArr []);
               ("repeat", JBool false); ("repeat-delay", JNum 1)])
    as (settings' & Hfile & Hip & _ & _ & _ & Hdelay & _);
    [unfold botNames; apply list_elem_of_further, list_elem_of_here
    |by vm_compute|done|done|].
  exists settings'. by repeat split.
Defined.

(** X13 on a page where MC1's settings have no [utils]: the address on
    disk stays localhost. *)
Lemma updateBotSettings_all_or_nothing_sample :
  files (updateBotSettings defaultServer halfSettingsPage) !! "C:\bots\MC1\settings.json"
  = Some (Text (JObj [("server", JObj [("ip", JStr "localhost")])])).
Proof.
  destruct (updateBotSettings_all_or_nothing defaultServer halfSettingsPage "MC1"
              (JObj [("server", JObj [("ip", JStr "localhost")])])
              (cannot_get "chat-messages"))
    as (Hfile & _); [apply list_elem_of_here|by vm_compute|by vm_compute|].
  exact Hfile.
Defined.
